(** * mcp_server_git: the command dispatcher and its path guard

    A shallow embedding of [src/git/src/mcp_server_git/server.py].

    The server forwards version-control requests to GitPython.  Everything
    the module does not implement itself (the filesystem behind
    [Path.resolve], the GitPython repository object, the client session)
    is gathered in a record [World] of answers; the functions of the module
    are written over it in a small monad [Py] that records every call into
    GitPython or the session as an [Event] and stops at the first raised
    exception.  Python [str] values are Rocq strings (their UTF-8 bytes),
    Python [int] is [Z], a [dict] with string keys is a [gmap string]. *)

From Stdlib Require Import ZArith Ascii String.
From stdpp Require Import base option list strings gmap pretty.

Local Open Scope Z_scope.

(** ** Exceptions and results *)

(** The exception classes the module raises or lets through. *)
Inductive exn : Type :=
  | KeyError (key : string)
  | TypeError (msg : string)
  | ValueError (msg : string)
  | BadName (msg : string)
  | InvalidGitRepositoryError (path : string)
  | NoSuchPathError (path : string)
  | GitCommandError (msg : string)
  | IndexError (msg : string)
  | UnicodeDecodeError (msg : string)
  | OSError (msg : string)
  | RuntimeError (msg : string).

Inductive result (A : Type) : Type :=
  | Ok (a : A)
  | Raise (e : exn).
Arguments Ok {A} a.
Arguments Raise {A} e.

(** ** Python odds and ends *)

(** [s.startswith("-")] *)
Definition startswith_dash (s : string) : bool :=
  match s with
  | String c _ => Ascii.eqb c "-"
  | EmptyString => false
  end.

(** Truthiness of a [str | None]: [None] and the empty string are falsy. *)
Definition truthy_str (o : option string) : bool :=
  match o with
  | Some s => negb (String.eqb s "")
  | None => false
  end.

(** Truthiness of a [list[str] | None]: [None] and the empty list are falsy. *)
Definition truthy_list (o : option (list string)) : bool :=
  match o with
  | Some (_ :: _) => true
  | _ => false
  end.

(** [f"{x}"] for a [str | None]. *)
Definition fmt_opt (o : option string) : string :=
  match o with
  | Some s => s
  | None => "None"
  end.

(** ** Paths

    [pathlib.Path] on a POSIX system: a root (empty for a relative path,
    ["/"], or ["//"] for exactly two leading slashes) and the segments
    below it.  Construction from a string drops empty and ["."] segments. *)
Record Path : Type := mkPath {
  path_root : string;
  path_tail : list string
}.

Global Instance Path_eq_dec : EqDecision Path.
Proof. solve_decision. Defined.

Fixpoint split_slash (s : string) : list string :=
  match s with
  | EmptyString => [""]
  | String c s' =>
      if Ascii.eqb c "/" then "" :: split_slash s'
      else match split_slash s' with
           | seg :: rest => String c seg :: rest
           | [] => [String c ""]
           end
  end.

Definition parse_root (s : string) : string :=
  match s with
  | String "/" (String "/" (String "/" _)) => "/"
  | String "/" (String "/" _) => "//"
  | String "/" _ => "/"
  | _ => ""
  end.

Definition is_segment (seg : string) : bool :=
  negb (String.eqb seg "") && negb (String.eqb seg ".").

(** [Path(s)] *)
Definition Path_of (s : string) : Path :=
  mkPath (parse_root s) (filter (λ seg, is_segment seg = true) (split_slash s)).

(** [str(p)] *)
Definition path_str (p : Path) : string :=
  match path_root p, path_tail p with
  | EmptyString, [] => "."
  | r, segs => r +:+ String.concat "/" segs
  end.

Fixpoint strip_segments (other self : list string) : option (list string) :=
  match other, self with
  | [], rest => Some rest
  | o :: other', s :: self' =>
      if String.eqb o s then strip_segments other' self' else None
  | _ :: _, [] => None
  end.

(** [self.relative_to(other)]: the remainder of [self] below [other], or
    [None] where pathlib raises [ValueError].  The comparison is by whole
    segments under the same root. *)
Definition relative_to (self other : Path) : option Path :=
  if String.eqb (path_root self) (path_root other) then
    match strip_segments (path_tail other) (path_tail self) with
    | Some rest => Some (mkPath "" rest)
    | None => None
    end
  else None.

(** ** The objects GitPython hands out *)

Record Repo : Type := { working_dir : string }.

Record Actor : Type := mkActor { actor_name : string; actor_email : string }.

Record DateTime : Type := { timestamp : Z; utc_offset : Z }.

Record Commit : Type := {
  hexsha : string;
  author : Actor;
  authored_datetime : DateTime;
  message : string;
  parents : list string
}.

Record Reference : Type := { ref_name : string }.

(** What [Commit.diff] compares: a commit, or [git.NULL_TREE]. *)
Inductive TreeIsh : Type :=
  | OfCommit (sha : string)
  | NULL_TREE.

Inductive DiffText : Type :=
  | DiffBytes (b : string)
  | DiffStr (s : string).

Record Diff : Type := {
  a_path : option string;
  b_path : option string;
  diff : option DiffText
}.

(** The keyword arguments [git_log] collects for [iter_commits]. *)
Record LogKwargs : Type := {
  kw_max_count : Z;
  kw_since : option string;
  kw_until : option string;
  kw_rev : option string;
  kw_paths : option (list string)
}.

(** ** The world outside the module *)

Record World : Type := {
  (** [Path.resolve()]: the canonical path, or the exception it raises. *)
  fs_resolve : Path → result Path;
  (** [repr] and [str] of the values that are formatted into replies. *)
  py_repr : string → string;
  py_repr_actor : Actor → string;
  py_str_datetime : DateTime → string;
  py_repr_datetime : DateTime → string;
  py_decode_utf8 : string → result string;
  (** [git.Repo(path)] *)
  Repo_open : string → result Repo;
  (** methods of the repository object *)
  repo_rev_parse : Repo → string → result unit;
  repo_git : Repo → string → list string → result string;
  repo_index_commit : Repo → string → option Actor → result Commit;
  repo_index_reset : Repo → option (list string) → result unit;
  repo_iter_commits : Repo → LogKwargs → result (list Commit);
  repo_references : Repo → string → result Reference;
  repo_active_branch : Repo → result Reference;
  repo_create_head : Repo → string → Reference → result unit;
  repo_commit : Repo → string → result Commit;
  repo_diff : Repo → TreeIsh → TreeIsh → result (list Diff);
  (** the client session of the current request *)
  session_is_ServerSession : bool;
  session_roots_capability : bool;
  session_list_roots : result (list string)
}.

(** ** PathGuard *)

Definition InvalidPath (repo_path : Path) : exn :=
  ValueError ("Invalid path: " +:+ path_str repo_path).

Definition PathOutsideAllowedRoot (repo_path allowed_repository : Path) : exn :=
  ValueError ("Repository path '" +:+ path_str repo_path
              +:+ "' is outside the allowed repository '"
              +:+ path_str allowed_repository +:+ "'").

(** [except (OSError, RuntimeError)]: the exceptions that clause catches.
    GitPython's [NoSuchPathError] is a subclass of [OSError]. *)
Definition is_OSError_or_RuntimeError (e : exn) : bool :=
  match e with
  | OSError _ | RuntimeError _ | NoSuchPathError _ => true
  | _ => false
  end.

(** The [try] block around the two calls of [resolve]: an exception the
    [except] clause catches becomes the "Invalid path" error, any other
    exception leaves the function as it is. *)
Definition resolve_failed (repo_path : Path) (e : exn) : exn :=
  if is_OSError_or_RuntimeError e then InvalidPath repo_path else e.

Definition validate_repo_path (w : World)
    (repo_path : Path) (allowed_repository : option Path) : result unit :=
  match allowed_repository with
  | None => Ok tt
  | Some allowed =>
      match fs_resolve w repo_path with
      | Raise e => Raise (resolve_failed repo_path e)
      | Ok resolved_repo =>
          match fs_resolve w allowed with
          | Raise e => Raise (resolve_failed repo_path e)
          | Ok resolved_allowed =>
              match relative_to resolved_repo resolved_allowed with
              | Some _ => Ok tt
              | None => Raise (PathOutsideAllowedRoot repo_path allowed)
              end
          end
      end
  end.

(** ** Calls into GitPython and the session

    One [Event] per call that leaves the module, in program order. *)
Inductive Event : Type :=
  | EvRepo (path : string)
  | EvRevParse (r : Repo) (rev : string)
  | EvGit (r : Repo) (cmd : string) (args : list string)
  | EvIndexCommit (r : Repo) (msg : string) (who : option Actor)
  | EvIndexReset (r : Repo) (paths : option (list string))
  | EvIterCommits (r : Repo) (kw : LogKwargs)
  | EvReference (r : Repo) (name : string)
  | EvActiveBranch (r : Repo)
  | EvCreateHead (r : Repo) (name : string) (base : Reference)
  | EvCommit (r : Repo) (rev : string)
  | EvDiff (r : Repo) (a b : TreeIsh)
  | EvCheckCapability
  | EvListRoots.

(** A computation: the calls it made, and its value or the exception that
    ended it. *)
Definition Py (A : Type) : Type := list Event * result A.

Definition trace {A} (m : Py A) : list Event := m.1.
Definition outcome {A} (m : Py A) : result A := m.2.

Global Instance Py_ret : MRet Py := λ A a, ([], Ok a).

Global Instance Py_bind : MBind Py := λ A B f m,
  match m with
  | (t, Ok a) => let '(t', r) := f a in (t ++ t', r)
  | (t, Raise e) => (t, Raise e)
  end.

Definition raise {A} (e : exn) : Py A := ([], Raise e).

(** A value computed without leaving the module. *)
Definition lift {A} (r : result A) : Py A := ([], r).

(** A call that leaves the module. *)
Definition call {A} (ev : Event) (r : result A) : Py A := ([ev], r).

Definition open_repo (w : World) (path : string) : Py Repo :=
  call (EvRepo path) (Repo_open w path).

Definition rev_parse (w : World) (r : Repo) (rev : string) : Py unit :=
  call (EvRevParse r rev) (repo_rev_parse w r rev).

(** [repo.git.<cmd>] applied to the unpacked [args]; GitPython drops the
    arguments that are [None]. *)
Definition git (w : World) (r : Repo) (cmd : string)
    (args : list (option string)) : Py string :=
  let argv := omap id args in
  call (EvGit r cmd argv) (repo_git w r cmd argv).

Definition is_command (ev : Event) : bool :=
  match ev with
  | EvRepo _ | EvCheckCapability | EvListRoots => false
  | _ => true
  end.

Definition is_repo_open (ev : Event) : bool :=
  match ev with
  | EvRepo _ => true
  | _ => false
  end.

(** ** CommandBuilder: one function per tool *)

Definition DEFAULT_CONTEXT_LINES : Z := 3.

Definition path_filter (paths : option (list string)) : list string :=
  if truthy_list paths then "--" :: default [] paths else [].

Definition git_status (w : World) (repo : Repo)
    (paths : option (list string)) : Py string :=
  let args := path_filter paths in
  git w repo "status" (Some <$> args).

Definition git_diff_unstaged (w : World) (repo : Repo) (context_lines : Z)
    (ignore_whitespace : bool) (paths : option (list string)) : Py string :=
  let args := ["--unified=" +:+ pretty context_lines] in
  let args := if ignore_whitespace then args ++ ["-w"] else args in
  let args := args ++ path_filter paths in
  git w repo "diff" (Some <$> args).

Definition git_diff_staged (w : World) (repo : Repo) (context_lines : Z)
    (ignore_whitespace : bool) (paths : option (list string)) : Py string :=
  let args := ["--unified=" +:+ pretty context_lines; "--cached"] in
  let args := if ignore_whitespace then args ++ ["-w"] else args in
  let args := args ++ path_filter paths in
  git w repo "diff" (Some <$> args).

(** Lines 171-187 of [git_diff]: the argument list handed to [git diff]. *)
Definition git_diff_args (target : string) (base : option string)
    (merge_base : bool) (context_lines : Z) (ignore_whitespace : bool)
    (paths : option (list string)) : list string :=
  let args := ["--unified=" +:+ pretty context_lines] in
  let args := if ignore_whitespace then args ++ ["-w"] else args in
  let args :=
    if truthy_str base then
      if merge_base then args ++ [default "" base +:+ "..." +:+ target]
      else args ++ [default "" base; target]
    else args ++ [target] in
  args ++ path_filter paths.

Definition git_diff (w : World) (repo : Repo) (target : string)
    (base : option string) (merge_base : bool) (context_lines : Z)
    (ignore_whitespace : bool) (paths : option (list string)) : Py string :=
  if startswith_dash target then
    raise (BadName ("Invalid target: '" +:+ target
                    +:+ "' - cannot start with '-'"))
  else if truthy_str base && startswith_dash (default "" base) then
    raise (BadName ("Invalid base: '" +:+ default "" base
                    +:+ "' - cannot start with '-'"))
  else
    rev_parse w repo target;;
    (if truthy_str base then rev_parse w repo (default "" base)
     else mret tt);;
    git w repo "diff"
      (Some <$> git_diff_args target base merge_base context_lines
                  ignore_whitespace paths).

(** The [author] that [git_commit] passes to [repo.index.commit]. *)
Definition commit_author (author_name author_email : option string)
    : option Actor :=
  if truthy_str author_name && truthy_str author_email
  then Some (mkActor (default "" author_name) (default "" author_email))
  else None.

Definition git_commit (w : World) (repo : Repo) (msg : string)
    (author_name author_email : option string) : Py string :=
  let author := commit_author author_name author_email in
  commit ← call (EvIndexCommit repo msg author)
                (repo_index_commit w repo msg author);
  mret ("Changes committed successfully with hash " +:+ hexsha commit).

Definition git_add (w : World) (repo : Repo) (files : list string) : Py string :=
  (if bool_decide (files = ["."]) then git w repo "add" [Some "."]
   else git w repo "add" (Some "--" :: (Some <$> files)));;
  mret "Files staged successfully".

Definition git_reset (w : World) (repo : Repo)
    (paths : option (list string)) : Py string :=
  if truthy_list paths then
    call (EvIndexReset repo paths) (repo_index_reset w repo paths);;
    mret ("Reset " +:+ pretty (length (default [] paths)) +:+ " files")
  else
    call (EvIndexReset repo None) (repo_index_reset w repo None);;
    mret "All staged changes reset".

Definition git_log_kwargs (max_count : Z) (revision_range : option string)
    (paths : option (list string))
    (start_timestamp end_timestamp : option string) : LogKwargs :=
  {| kw_max_count := max_count;
     kw_since := if truthy_str start_timestamp then start_timestamp else None;
     kw_until := if truthy_str end_timestamp then end_timestamp else None;
     kw_rev := if truthy_str revision_range then revision_range else None;
     kw_paths := if truthy_list paths then paths else None |}.

Definition log_entry (w : World) (commit : Commit) : string :=
  "Commit: " +:+ py_repr w (hexsha commit) +:+ "
" +:+ "Author: " +:+ py_repr_actor w (author commit) +:+ "
" +:+ "Date: " +:+ py_str_datetime w (authored_datetime commit) +:+ "
" +:+ "Message: " +:+ py_repr w (message commit) +:+ "
".

Definition git_log (w : World) (repo : Repo) (max_count : Z)
    (revision_range : option string) (paths : option (list string))
    (start_timestamp end_timestamp : option string) : Py (list string) :=
  let kwargs := git_log_kwargs max_count revision_range paths
                  start_timestamp end_timestamp in
  commits ← call (EvIterCommits repo kwargs) (repo_iter_commits w repo kwargs);
  mret (log_entry w <$> commits).

Definition git_create_branch (w : World) (repo : Repo) (branch_name : string)
    (base_branch : option string) : Py string :=
  base ← (if truthy_str base_branch
          then call (EvReference repo (default "" base_branch))
                    (repo_references w repo (default "" base_branch))
          else call (EvActiveBranch repo) (repo_active_branch w repo));
  call (EvCreateHead repo branch_name base)
       (repo_create_head w repo branch_name base);;
  mret ("Created branch '" +:+ branch_name +:+ "' from '"
        +:+ ref_name base +:+ "'").

Definition git_checkout (w : World) (repo : Repo) (branch_name : string)
    : Py string :=
  if startswith_dash branch_name then
    raise (BadName ("Invalid branch name: '" +:+ branch_name
                    +:+ "' - cannot start with '-'"))
  else
    rev_parse w repo branch_name;;
    git w repo "checkout" [Some branch_name];;
    mret ("Switched to branch '" +:+ branch_name +:+ "'").

Global Instance result_ret : MRet result := λ A a, Ok a.

Global Instance result_bind : MBind result := λ A B f r,
  match r with
  | Ok a => f a
  | Raise e => Raise e
  end.

Definition show_header (w : World) (commit : Commit) : string :=
  "Commit: " +:+ py_repr w (hexsha commit) +:+ "
" +:+ "Author: " +:+ py_repr_actor w (author commit) +:+ "
" +:+ "Date: " +:+ py_repr_datetime w (authored_datetime commit) +:+ "
" +:+ "Message: " +:+ py_repr w (message commit) +:+ "
".

(** What one iteration of the loop over the diff appends to [output]. *)
Definition show_entry (w : World) (d : Diff) : result (list string) :=
  let paths_line := "
--- " +:+ fmt_opt (a_path d) +:+ "
+++ " +:+ fmt_opt (b_path d) +:+ "
" in
  match diff d with
  | None => Ok [paths_line]
  | Some (DiffBytes b) => s ← py_decode_utf8 w b; Ok [paths_line; s]
  | Some (DiffStr s) => Ok [paths_line; s]
  end.

Fixpoint show_entries (w : World) (output : list string) (ds : list Diff)
    : result (list string) :=
  match ds with
  | [] => Ok output
  | d :: ds' => piece ← show_entry w d; show_entries w (output ++ piece) ds'
  end.

(** The comparison [git_show] asks GitPython for: receiver, then argument. *)
Definition show_diff_request (commit : Commit) : TreeIsh * TreeIsh :=
  match parents commit with
  | parent :: _ => (OfCommit parent, OfCommit (hexsha commit))
  | [] => (OfCommit (hexsha commit), NULL_TREE)
  end.

Definition git_show (w : World) (repo : Repo) (revision : string) : Py string :=
  commit ← call (EvCommit repo revision) (repo_commit w repo revision);
  let output := [show_header w commit] in
  let '(a, b) := show_diff_request commit in
  ds ← call (EvDiff repo a b) (repo_diff w repo a b);
  output ← lift (show_entries w output ds);
  mret (String.concat "" output).

Definition git_grep (w : World) (repo : Repo) (pattern : string)
    (revision : option string) (paths : option (list string))
    (ignore_case line_numbers : bool) : Py string :=
  let args := [] in
  let args := if ignore_case then args ++ ["-i"] else args in
  let args := if line_numbers then args ++ ["-n"] else args in
  let args := args ++ ["-e"] in
  let args := args ++ [pattern] in
  let args := if truthy_str revision then args ++ [default "" revision]
              else args in
  let args := args ++ ["--"] in
  let args := if truthy_list paths then args ++ default [] paths else args in
  git w repo "grep" (Some <$> args).

(** The [match branch_type] of [git_branch]: [Some b_type] for the three
    scopes, [None] for the fall-through case. *)
Definition branch_scope (branch_type : string) : option (option string) :=
  if String.eqb branch_type "local" then Some None
  else if String.eqb branch_type "remote" then Some (Some "-r")
  else if String.eqb branch_type "all" then Some (Some "-a")
  else None.

Definition git_branch (w : World) (repo : Repo) (branch_type : string)
    (contains not_contains : option string) : Py string :=
  let contains_sha :=
    match contains with
    | None => [None]
    | Some c => [Some "--contains"; Some c]
    end in
  let not_contains_sha :=
    match not_contains with
    | None => [None]
    | Some c => [Some "--no-contains"; Some c]
    end in
  match branch_scope branch_type with
  | Some b_type =>
      git w repo "branch" (b_type :: contains_sha ++ not_contains_sha)
  | None => mret ("Invalid branch type: " +:+ branch_type)
  end.

(** ** RepositoryResolver *)

(** [try: body except <the exceptions handler accepts>: ...] *)
Definition try_except {A} (body : Py A) (handler : exn → option (Py A)) : Py A :=
  match body with
  | (t, Raise e) =>
      match handler e with
      | Some h => let '(t', r) := h in (t ++ t', r)
      | None => (t, Raise e)
      end
  | (t, Ok a) => (t, Ok a)
  end.

(** The loop of [by_roots] over the advertised roots. *)
Fixpoint collect_repos (w : World) (repo_paths : list string)
    (roots : list string) : Py (list string) :=
  match roots with
  | [] => mret repo_paths
  | path :: roots' =>
      repo_paths ←
        try_except (open_repo w path;; mret (repo_paths ++ [path]))
                   (λ e, match e with
                         | InvalidGitRepositoryError _ => Some (mret repo_paths)
                         | _ => None
                         end);
      collect_repos w repo_paths roots'
  end.

Definition by_roots (w : World) : Py (list string) :=
  if negb (session_is_ServerSession w) then
    raise (TypeError "server.request_context.session must be a ServerSession")
  else
    supported ← call EvCheckCapability (Ok (session_roots_capability w));
    if negb supported then mret []
    else
      roots ← call EvListRoots (session_list_roots w);
      collect_repos w [] roots.

Definition by_commandline (repository : option Path) : list string :=
  match repository with
  | Some p => [path_str p]
  | None => []
  end.

Definition list_repos (w : World) (repository : option Path)
    : Py (list string) :=
  let cmd_repos := by_commandline repository in
  root_repos ← by_roots w;
  mret (root_repos ++ cmd_repos).

(** ** Dispatcher *)

(** The values of the argument mapping of a request. *)
Inductive Value : Type :=
  | VNone
  | VBool (b : bool)
  | VInt (n : Z)
  | VStr (s : string)
  | VList (l : list string).

Record TextContent : Type := mkText { content_type : string; text : string }.

Inductive GitTools : Type :=
  | STATUS | DIFF_UNSTAGED | DIFF_STAGED | DIFF | COMMIT | ADD | RESET | LOG
  | CREATE_BRANCH | CHECKOUT | SHOW | GREP | BRANCH.

Definition GitTools_value (t : GitTools) : string :=
  match t with
  | STATUS => "git_status"
  | DIFF_UNSTAGED => "git_diff_unstaged"
  | DIFF_STAGED => "git_diff_staged"
  | DIFF => "git_diff"
  | COMMIT => "git_commit"
  | ADD => "git_add"
  | RESET => "git_reset"
  | LOG => "git_log"
  | CREATE_BRANCH => "git_create_branch"
  | CHECKOUT => "git_checkout"
  | SHOW => "git_show"
  | GREP => "git_grep"
  | BRANCH => "git_branch"
  end.

(** The cases of [match name], in the order they are tried. *)
Definition tool_cases : list GitTools :=
  [STATUS; DIFF_UNSTAGED; DIFF_STAGED; DIFF; COMMIT; ADD; RESET; LOG;
   CREATE_BRANCH; CHECKOUT; SHOW; GREP; BRANCH].

Definition match_name (name : string) : option GitTools :=
  List.find (λ t, String.eqb name (GitTools_value t)) tool_cases.

(** [arguments[key]] *)
Definition getitem (arguments : gmap string Value) (key : string)
    : result Value :=
  match arguments !! key with
  | Some v => Ok v
  | None => Raise (KeyError key)
  end.

(** The tool functions are written for the types their signatures
    declare.  A request value of another type is outside the tool's input
    schema; it is turned into a [TypeError] where it is passed. *)
Definition expect_str (v : Value) : result string :=
  match v with
  | VStr s => Ok s
  | _ => Raise (TypeError "expected str")
  end.

Definition expect_opt_str (v : option Value) : result (option string) :=
  match v with
  | None | Some VNone => Ok None
  | Some (VStr s) => Ok (Some s)
  | Some _ => Raise (TypeError "expected str or None")
  end.

Definition expect_list (v : Value) : result (list string) :=
  match v with
  | VList l => Ok l
  | _ => Raise (TypeError "expected list[str]")
  end.

Definition expect_opt_list (v : option Value) : result (option (list string)) :=
  match v with
  | None | Some VNone => Ok None
  | Some (VList l) => Ok (Some l)
  | Some _ => Raise (TypeError "expected list[str] or None")
  end.

Definition expect_int (v : Value) : result Z :=
  match v with
  | VInt n => Ok n
  | _ => Raise (TypeError "expected int")
  end.

Definition expect_bool (v : Value) : result bool :=
  match v with
  | VBool b => Ok b
  | _ => Raise (TypeError "expected bool")
  end.

Definition reply (s : string) : list TextContent := [mkText "text" s].

Definition run_tool (w : World) (repo : Repo) (name : string)
    (arguments : gmap string Value) : Py (list TextContent) :=
  match match_name name with
  | Some STATUS =>
      paths ← lift (expect_opt_list (arguments !! "paths"));
      status ← git_status w repo paths;
      mret (reply ("Repository status:
" +:+ status))
  | Some DIFF_UNSTAGED =>
      context_lines ← lift (expect_int (default (VInt DEFAULT_CONTEXT_LINES)
                                          (arguments !! "context_lines")));
      ignore_whitespace ← lift (expect_bool (default (VBool false)
                                          (arguments !! "ignore_whitespace")));
      paths ← lift (expect_opt_list (arguments !! "paths"));
      d ← git_diff_unstaged w repo context_lines ignore_whitespace paths;
      mret (reply ("Unstaged changes:
" +:+ d))
  | Some DIFF_STAGED =>
      context_lines ← lift (expect_int (default (VInt DEFAULT_CONTEXT_LINES)
                                          (arguments !! "context_lines")));
      ignore_whitespace ← lift (expect_bool (default (VBool false)
                                          (arguments !! "ignore_whitespace")));
      paths ← lift (expect_opt_list (arguments !! "paths"));
      d ← git_diff_staged w repo context_lines ignore_whitespace paths;
      mret (reply ("Staged changes:
" +:+ d))
  | Some DIFF =>
      target ← lift (getitem arguments "target" ≫= expect_str);
      base ← lift (expect_opt_str (arguments !! "base"));
      merge_base ← lift (expect_bool (default (VBool false)
                                          (arguments !! "merge_base")));
      context_lines ← lift (expect_int (default (VInt DEFAULT_CONTEXT_LINES)
                                          (arguments !! "context_lines")));
      ignore_whitespace ← lift (expect_bool (default (VBool false)
                                          (arguments !! "ignore_whitespace")));
      paths ← lift (expect_opt_list (arguments !! "paths"));
      d ← git_diff w repo target base merge_base context_lines
            ignore_whitespace paths;
      mret (reply ("Diff with " +:+ target +:+ ":
" +:+ d))
  | Some COMMIT =>
      msg ← lift (getitem arguments "message" ≫= expect_str);
      author_name ← lift (expect_opt_str (arguments !! "author_name"));
      author_email ← lift (expect_opt_str (arguments !! "author_email"));
      res ← git_commit w repo msg author_name author_email;
      mret (reply res)
  | Some ADD =>
      files ← lift (getitem arguments "files" ≫= expect_list);
      res ← git_add w repo files;
      mret (reply res)
  | Some RESET =>
      paths ← lift (expect_opt_list (arguments !! "paths"));
      res ← git_reset w repo paths;
      mret (reply res)
  | Some LOG =>
      max_count ← lift (expect_int (default (VInt 10)
                                      (arguments !! "max_count")));
      revision_range ← lift (expect_opt_str (arguments !! "revision_range"));
      paths ← lift (expect_opt_list (arguments !! "paths"));
      start_timestamp ← lift (expect_opt_str (arguments !! "start_timestamp"));
      end_timestamp ← lift (expect_opt_str (arguments !! "end_timestamp"));
      log ← git_log w repo max_count revision_range paths
              start_timestamp end_timestamp;
      mret (reply ("Commit history:
" +:+ String.concat "
" log))
  | Some CREATE_BRANCH =>
      branch_name ← lift (getitem arguments "branch_name" ≫= expect_str);
      base_branch ← lift (expect_opt_str (arguments !! "base_branch"));
      res ← git_create_branch w repo branch_name base_branch;
      mret (reply res)
  | Some CHECKOUT =>
      branch_name ← lift (getitem arguments "branch_name" ≫= expect_str);
      res ← git_checkout w repo branch_name;
      mret (reply res)
  | Some SHOW =>
      revision ← lift (getitem arguments "revision" ≫= expect_str);
      res ← git_show w repo revision;
      mret (reply res)
  | Some GREP =>
      pattern ← lift (getitem arguments "pattern" ≫= expect_str);
      revision ← lift (expect_opt_str (arguments !! "revision"));
      paths ← lift (expect_opt_list (arguments !! "paths"));
      ignore_case ← lift (expect_bool (default (VBool false)
                                          (arguments !! "ignore_case")));
      line_numbers ← lift (expect_bool (default (VBool true)
                                          (arguments !! "line_numbers")));
      res ← git_grep w repo pattern revision paths ignore_case line_numbers;
      mret (reply res)
  | Some BRANCH =>
      branch_type ← lift (expect_str (default (VStr "local")
                                          (arguments !! "branch_type")));
      contains ← lift (expect_opt_str (arguments !! "contains"));
      not_contains ← lift (expect_opt_str (arguments !! "not_contains"));
      res ← git_branch w repo branch_type contains not_contains;
      mret (reply res)
  | None => raise (ValueError ("Unknown tool: " +:+ name))
  end.

Definition call_tool (w : World) (repository : option Path) (name : string)
    (arguments : gmap string Value) : Py (list TextContent) :=
  raw ← lift (getitem arguments "repo_path" ≫= expect_str);
  let repo_path := Path_of raw in
  lift (validate_repo_path w repo_path repository);;
  repo ← open_repo w (path_str repo_path);
  run_tool w repo name arguments.

(** ** Tool catalog

    The pydantic models of the tools (lines 22-118) as the fields they
    declare, and [list_tools], which advertises one [Tool] per model. *)
Inductive FieldType : Type :=
  | TStr
  | TInt
  | TBool
  | TList
  | TOptional (t : FieldType).

(** A field is required, or has the default written in the model. *)
Inductive Presence : Type :=
  | Required
  | Default (v : Value).

Record Field : Type := mkField {
  field_name : string;
  field_type : FieldType;
  field_presence : Presence
}.

Definition GitStatus : list Field :=
  [mkField "repo_path" TStr Required;
   mkField "paths" (TOptional TList) (Default VNone)].

Definition GitDiffUnstaged : list Field :=
  [mkField "repo_path" TStr Required;
   mkField "context_lines" TInt (Default (VInt DEFAULT_CONTEXT_LINES));
   mkField "ignore_whitespace" TBool (Default (VBool false));
   mkField "paths" (TOptional TList) (Default VNone)].

Definition GitDiffStaged : list Field :=
  [mkField "repo_path" TStr Required;
   mkField "context_lines" TInt (Default (VInt DEFAULT_CONTEXT_LINES));
   mkField "ignore_whitespace" TBool (Default (VBool false));
   mkField "paths" (TOptional TList) (Default VNone)].

Definition GitDiff : list Field :=
  [mkField "repo_path" TStr Required;
   mkField "target" TStr Required;
   mkField "base" (TOptional TStr) (Default VNone);
   mkField "merge_base" TBool (Default (VBool false));
   mkField "context_lines" TInt (Default (VInt DEFAULT_CONTEXT_LINES));
   mkField "ignore_whitespace" TBool (Default (VBool false));
   mkField "paths" (TOptional TList) (Default VNone)].

Definition GitCommit : list Field :=
  [mkField "repo_path" TStr Required;
   mkField "message" TStr Required;
   mkField "author_name" (TOptional TStr) (Default VNone);
   mkField "author_email" (TOptional TStr) (Default VNone)].

Definition GitAdd : list Field :=
  [mkField "repo_path" TStr Required;
   mkField "files" TList Required].

Definition GitReset : list Field :=
  [mkField "repo_path" TStr Required;
   mkField "paths" (TOptional TList) (Default VNone)].

Definition GitLog : list Field :=
  [mkField "repo_path" TStr Required;
   mkField "max_count" TInt (Default (VInt 10));
   mkField "revision_range" (TOptional TStr) (Default VNone);
   mkField "paths" (TOptional TList) (Default VNone);
   mkField "start_timestamp" (TOptional TStr) (Default VNone);
   mkField "end_timestamp" (TOptional TStr) (Default VNone)].

Definition GitCreateBranch : list Field :=
  [mkField "repo_path" TStr Required;
   mkField "branch_name" TStr Required;
   mkField "base_branch" (TOptional TStr) (Default VNone)].

Definition GitCheckout : list Field :=
  [mkField "repo_path" TStr Required;
   mkField "branch_name" TStr Required].

Definition GitShow : list Field :=
  [mkField "repo_path" TStr Required;
   mkField "revision" TStr Required].

Definition GitBranch : list Field :=
  [mkField "repo_path" TStr Required;
   mkField "branch_type" TStr Required;
   mkField "contains" (TOptional TStr) (Default VNone);
   mkField "not_contains" (TOptional TStr) (Default VNone)].

Definition GitGrep : list Field :=
  [mkField "repo_path" TStr Required;
   mkField "pattern" TStr Required;
   mkField "revision" (TOptional TStr) (Default VNone);
   mkField "paths" (TOptional TList) (Default VNone);
   mkField "ignore_case" TBool (Default (VBool false));
   mkField "line_numbers" TBool (Default (VBool true))].

Record Tool : Type := mkTool {
  tool_name : string;
  tool_description : string;
  inputSchema : list Field
}.

Definition list_tools : list Tool :=
  [mkTool (GitTools_value STATUS) "Shows the working tree status" GitStatus;
   mkTool (GitTools_value DIFF_UNSTAGED)
     "Shows changes in the working directory that are not yet staged"
     GitDiffUnstaged;
   mkTool (GitTools_value DIFF_STAGED)
     "Shows changes that are staged for commit" GitDiffStaged;
   mkTool (GitTools_value DIFF)
     "Shows differences between branches or commits" GitDiff;
   mkTool (GitTools_value COMMIT) "Records changes to the repository" GitCommit;
   mkTool (GitTools_value ADD) "Adds file contents to the staging area" GitAdd;
   mkTool (GitTools_value RESET) "Unstages all staged changes" GitReset;
   mkTool (GitTools_value LOG) "Shows the commit logs" GitLog;
   mkTool (GitTools_value CREATE_BRANCH)
     "Creates a new branch from an optional base branch" GitCreateBranch;
   mkTool (GitTools_value CHECKOUT) "Switches branches" GitCheckout;
   mkTool (GitTools_value SHOW) "Shows the contents of a commit" GitShow;
   mkTool (GitTools_value GREP) "Search for a pattern in the repository" GitGrep;
   mkTool (GitTools_value BRANCH) "List Git branches" GitBranch].

(** ** Vocabulary of the properties *)

(** The containment the specification asks for, on canonical paths: the
    candidate is the allowed root, or lies below it by at least one whole
    segment. *)
Definition is_descendant (p a : Path) : Prop :=
  path_root p = path_root a
  ∧ ∃ seg rest, path_tail p = path_tail a ++ seg :: rest.

Definition within_root (p a : Path) : Prop := p = a ∨ is_descendant p a.

(** The four ways a request can go. *)
Inductive dispatch_path (w : World) (repository : option Path)
    (name : string) (arguments : gmap string Value)
    : Py (list TextContent) → Prop :=
  | no_repo_path e :
      getitem arguments "repo_path" ≫= expect_str = Raise e →
      dispatch_path w repository name arguments ([], Raise e)
  | guard_refused raw e :
      arguments !! "repo_path" = Some (VStr raw) →
      validate_repo_path w (Path_of raw) repository = Raise e →
      dispatch_path w repository name arguments ([], Raise e)
  | open_failed raw e :
      arguments !! "repo_path" = Some (VStr raw) →
      validate_repo_path w (Path_of raw) repository = Ok tt →
      Repo_open w (path_str (Path_of raw)) = Raise e →
      dispatch_path w repository name arguments
        ([EvRepo (path_str (Path_of raw))], Raise e)
  | dispatched raw repo :
      arguments !! "repo_path" = Some (VStr raw) →
      validate_repo_path w (Path_of raw) repository = Ok tt →
      Repo_open w (path_str (Path_of raw)) = Ok repo →
      dispatch_path w repository name arguments
        (EvRepo (path_str (Path_of raw))
           :: trace (run_tool w repo name arguments),
         outcome (run_tool w repo name arguments)).

(** The options that precede the revisions, and a path filter behind its
    separator. *)
Definition diff_options (context_lines : Z) (ignore_whitespace : bool)
    : list string :=
  ("--unified=" +:+ pretty context_lines)
    :: (if ignore_whitespace then ["-w"] else []).

Definition after_separator (paths : option (list string)) : list string :=
  match paths with
  | Some (p :: ps) => "--" :: p :: ps
  | _ => []
  end.

(** The text [git_show] builds from the answer to the comparison of [a]
    with [b]: the header of the commit, then every entry of the diff. *)
Definition show_output (w : World) (repo : Repo) (commit : Commit)
    (a b : TreeIsh) : result string :=
  ds ← repo_diff w repo a b;
  output ← show_entries w [show_header w commit] ds;
  Ok (String.concat "" output).

(** What the loop of [git_show] appends for an entry [d] whose patch is the
    text [s]. *)
Definition entry_text (d : Diff) (s : string) : list string :=
  ["
--- " +:+ fmt_opt (a_path d) +:+ "
+++ " +:+ fmt_opt (b_path d) +:+ "
"; s].

(** The patch of a diff entry as [git_show] prints it: nothing for an entry
    without patch, the text of a text patch, the decoded text of a patch
    in bytes. *)
Inductive patch_shown (w : World) (d : Diff) : string → Prop :=
  | no_patch :
      diff d = None → patch_shown w d ""
  | text_patch s :
      diff d = Some (DiffStr s) → patch_shown w d s
  | bytes_patch b s :
      diff d = Some (DiffBytes b) → py_decode_utf8 w b = Ok s →
      patch_shown w d s.

(** The lines that name the two sides of an entry, and the entry as it
    stands in the reply: those lines, then its patch. *)
Definition entry_paths_line (d : Diff) : string :=
  "
--- " +:+ fmt_opt (a_path d) +:+ "
+++ " +:+ fmt_opt (b_path d) +:+ "
".

Definition entry_block (d : Diff) (patch : string) : string :=
  entry_paths_line d +:+ patch.

(** The reply for a commit whose comparison has the entries [ds] with the
    patches [patches]: the header, then every entry in order. *)
Definition shown_text (w : World) (commit : Commit) (ds : list Diff)
    (patches : list string) : string :=
  show_header w commit +:+ String.concat "" (zip_with entry_block ds patches).

(** An advertised root verifies when [git.Repo] opens it. *)
Definition verifies (w : World) (path : string) : Prop :=
  ∃ repo, Repo_open w path = Ok repo.

Global Instance verifies_dec (w : World) (path : string)
  : Decision (verifies w path).
Proof.
  unfold verifies. destruct (Repo_open w path) as [repo|e].
  - left. by exists repo.
  - right. intros [repo Hrepo]. discriminate.
Defined.

(** An advertised root is classified when opening it either succeeds or
    raises [InvalidGitRepositoryError], the one exception [by_roots]
    handles. *)
Definition classified (w : World) (path : string) : Prop :=
  ∀ e, Repo_open w path = Raise e → ∃ p, e = InvalidGitRepositoryError p.

(** The schema [list_tools] advertises under a name. *)
Definition advertised_schema (name : string) : option (list Field) :=
  inputSchema <$> List.find (λ t, String.eqb name (tool_name t)) list_tools.

(** A computation that only talks to an opened repository: it opens none
    and does not call the session. *)
Definition commands_only {A} (m : Py A) : Prop :=
  Forall (λ ev, is_command ev = true) (trace m).

(** The repository object a call is made on; [None] for a call that is
    made on none ([git.Repo] itself, the calls into the session). *)
Definition event_repo (ev : Event) : option Repo :=
  match ev with
  | EvRepo _ | EvCheckCapability | EvListRoots => None
  | EvRevParse r _ | EvGit r _ _ | EvIndexCommit r _ _ | EvIndexReset r _
  | EvIterCommits r _ | EvReference r _ | EvActiveBranch r
  | EvCreateHead r _ _ | EvCommit r _ | EvDiff r _ _ => Some r
  end.

(** A computation all of whose calls are made on the repository [repo]. *)
Definition only_on {A} (repo : Repo) (m : Py A) : Prop :=
  Forall (λ ev, event_repo ev = Some repo) (trace m).

(** A computation whose value, when it has one, is a single text part. *)
Definition single_text (m : Py (list TextContent)) : Prop :=
  ∀ parts, outcome m = Ok parts → ∃ s, parts = [mkText "text" s].

(** An optional value with the falsy ones (the empty string, the empty
    list) turned into [None]. *)
Definition blank_str (o : option string) : option string :=
  if truthy_str o then o else None.

Definition blank_list (o : option (list string)) : option (list string) :=
  if truthy_list o then o else None.

(** The arguments of [git branch] for the two commit filters. *)
Definition contains_args (flag : string) (sha : option string) : list string :=
  match sha with
  | Some c => [flag; c]
  | None => []
  end.

(** ** A concrete world

    A filesystem whose working directory is [/work], in which [..]
    names the parent directory and a path through a segment [loop] runs
    into a loop of symbolic links; three repositories; a session that
    advertises three roots. *)
Module Demo.

(** The segments [todo] walked from the directory [above] (innermost
    segment first), [..] stepping up. *)
Fixpoint climb (above todo : list string) : list string :=
  match todo with
  | [] => List.rev above
  | seg :: todo' =>
      if String.eqb seg ".." then climb (tail above) todo'
      else climb (seg :: above) todo'
  end.

Definition resolve (p : Path) : result Path :=
  if bool_decide ("loop" ∈ path_tail p) then Raise (RuntimeError "Symlink loop")
  else if String.eqb (path_root p) ""
       then Ok (mkPath "/" (climb [] ("work" :: path_tail p)))
       else Ok (mkPath (path_root p) (climb [] (path_tail p))).

Definition repositories : list string :=
  ["/repos/proj"; "/repos/proj/sub"; "/repos/other"].

Definition refs : list string := ["main"; "feature"; "HEAD"].

Definition when {A} (b : bool) (a : A) (e : exn) : result A :=
  if b then Ok a else Raise e.

Definition root_commit : Commit :=
  {| hexsha := "c0ffee"; author := mkActor "Ada" "ada@example.org";
     authored_datetime := {| timestamp := 0; utc_offset := 0 |};
     message := "initial"; parents := [] |}.

Definition second_commit : Commit :=
  {| hexsha := "decade"; author := mkActor "Ada" "ada@example.org";
     authored_datetime := {| timestamp := 60; utc_offset := 0 |};
     message := "second"; parents := ["c0ffee"] |}.

Definition lookup_commit (rev : string) : result Commit :=
  if String.eqb rev "c0ffee" then Ok root_commit
  else if bool_decide (rev ∈ "decade" :: refs) then Ok second_commit
  else Raise (BadName rev).

Definition readme_added : Diff :=
  {| a_path := None; b_path := Some "README"; diff := Some (DiffBytes "+hello") |}.

Definition readme_changed : Diff :=
  {| a_path := Some "README"; b_path := Some "README";
     diff := Some (DiffBytes "-hello+bye") |}.

Definition world : World :=
  {| fs_resolve := resolve;
     py_repr := λ s, "'" +:+ s +:+ "'";
     py_repr_actor := λ a, "<" +:+ actor_name a +:+ " " +:+ actor_email a +:+ ">";
     py_str_datetime := λ d, pretty (timestamp d);
     py_repr_datetime := λ d, "datetime(" +:+ pretty (timestamp d) +:+ ")";
     py_decode_utf8 := Ok;
     Repo_open := λ p, when (bool_decide (p ∈ repositories))
                            {| working_dir := p |}
                            (InvalidGitRepositoryError p);
     repo_rev_parse := λ _ rev, when (bool_decide (rev ∈ refs)) tt (BadName rev);
     repo_git := λ _ cmd args, Ok (String.concat " " ("git" :: cmd :: args));
     repo_index_commit := λ _ msg who,
       Ok {| hexsha := "f00d"; author := default (mkActor "cfg" "cfg@host") who;
             authored_datetime := {| timestamp := 120; utc_offset := 0 |};
             message := msg; parents := ["decade"] |};
     repo_index_reset := λ _ _, Ok tt;
     repo_iter_commits := λ _ _, Ok [second_commit; root_commit];
     repo_references := λ _ n, when (bool_decide (n ∈ refs))
                                    {| ref_name := n |} (IndexError n);
     repo_active_branch := λ _, Ok {| ref_name := "main" |};
     repo_create_head := λ _ _ _, Ok tt;
     repo_commit := λ _ rev, lookup_commit rev;
     repo_diff := λ _ a b,
       match b with
       | NULL_TREE => Ok [readme_added]
       | OfCommit _ => Ok [readme_changed]
       end;
     session_is_ServerSession := true;
     session_roots_capability := true;
     session_list_roots := Ok ["/repos/other"; "/tmp"; "/repos/proj"] |}.

Definition repo : Repo := {| working_dir := "/repos/proj" |}.

End Demo.

(** ** Variations of the concrete world *)
Module Scenario.

(** The world [w] with another client session. *)
Definition with_session (w : World) (is_server_session capability : bool)
    (roots : result (list string)) : World :=
  {| fs_resolve := fs_resolve w;
     py_repr := py_repr w;
     py_repr_actor := py_repr_actor w;
     py_str_datetime := py_str_datetime w;
     py_repr_datetime := py_repr_datetime w;
     py_decode_utf8 := py_decode_utf8 w;
     Repo_open := Repo_open w;
     repo_rev_parse := repo_rev_parse w;
     repo_git := repo_git w;
     repo_index_commit := repo_index_commit w;
     repo_index_reset := repo_index_reset w;
     repo_iter_commits := repo_iter_commits w;
     repo_references := repo_references w;
     repo_active_branch := repo_active_branch w;
     repo_create_head := repo_create_head w;
     repo_commit := repo_commit w;
     repo_diff := repo_diff w;
     session_is_ServerSession := is_server_session;
     session_roots_capability := capability;
     session_list_roots := roots |}.

(** A session of another kind. *)
Definition foreign_session : World :=
  with_session Demo.world false true (Ok []).

(** The world [w] with another filesystem and other repositories. *)
Definition with_disk (w : World) (resolve : Path → result Path)
    (open : string → result Repo) : World :=
  {| fs_resolve := resolve;
     py_repr := py_repr w;
     py_repr_actor := py_repr_actor w;
     py_str_datetime := py_str_datetime w;
     py_repr_datetime := py_repr_datetime w;
     py_decode_utf8 := py_decode_utf8 w;
     Repo_open := open;
     repo_rev_parse := repo_rev_parse w;
     repo_git := repo_git w;
     repo_index_commit := repo_index_commit w;
     repo_index_reset := repo_index_reset w;
     repo_iter_commits := repo_iter_commits w;
     repo_references := repo_references w;
     repo_active_branch := repo_active_branch w;
     repo_create_head := repo_create_head w;
     repo_commit := repo_commit w;
     repo_diff := repo_diff w;
     session_is_ServerSession := session_is_ServerSession w;
     session_roots_capability := session_roots_capability w;
     session_list_roots := session_list_roots w |}.

(** A segment with a NUL character in it, and a filesystem on which
    resolving a path through such a segment raises the [ValueError] of the
    operating-system call. *)
Definition nul_segment : string := String Ascii.zero "b".

Definition has_nul (seg : string) : bool :=
  existsb (Ascii.eqb Ascii.zero) (list_ascii_of_string seg).

Definition resolve_checking_nul (p : Path) : result Path :=
  if existsb has_nul (path_tail p)
  then Raise (ValueError "embedded null byte")
  else Demo.resolve p.

Definition nul_world : World :=
  with_disk Demo.world resolve_checking_nul (Repo_open Demo.world).

(** Repositories as in [Demo], and the directory [/missing] does not
    exist; the session advertises it between two repositories. *)
Definition open_or_missing (path : string) : result Repo :=
  if String.eqb path "/missing" then Raise (NoSuchPathError path)
  else Repo_open Demo.world path.

Definition missing_root : World :=
  with_session (with_disk Demo.world Demo.resolve open_or_missing)
    true true (Ok ["/repos/other"; "/missing"; "/repos/proj"]).

End Scenario.

(** * Properties *)

(** ** PathGuard *)

Section PathGuard.

(** [Path] drops empty and [.] segments and a trailing slash, and keeps a
    relative path relative. *)
Example Path_of_normalises :
  Path_of "/repos//proj/./sub/" = mkPath "/" ["repos"; "proj"; "sub"]
  ∧ path_str (Path_of "/repos//proj/./sub/") = "/repos/proj/sub"
  ∧ Path_of "proj/sub" = mkPath "" ["proj"; "sub"]
  ∧ path_str (Path_of "") = ".".
Proof. repeat split. Qed.

Lemma strip_segments_spec (other self rest : list string) :
  strip_segments other self = Some rest ↔ self = other ++ rest.
Proof.
  revert self. induction other as [|o other IH]; intros self; simpl.
  - split; congruence.
  - destruct self as [|s self]; [split; discriminate|].
    destruct (String.eqb_spec o s) as [->|Hne].
    + rewrite IH. split; congruence.
    + split; [discriminate | congruence].
Qed.

Lemma relative_to_spec (p a : Path) :
  is_Some (relative_to p a)
  ↔ path_root p = path_root a ∧ ∃ rest, path_tail p = path_tail a ++ rest.
Proof.
  unfold relative_to.
  destruct (String.eqb_spec (path_root p) (path_root a)) as [Hr|Hr].
  - destruct (strip_segments (path_tail a) (path_tail p)) as [rest|] eqn:Hs.
    + apply strip_segments_spec in Hs. split; eauto.
    + split; [intros [? ?]; discriminate|].
      intros [_ [rest Hrest]]. apply strip_segments_spec in Hrest. congruence.
  - split; [intros [? ?]; discriminate | tauto].
Qed.

Lemma relative_to_within_root (p a : Path) :
  is_Some (relative_to p a) ↔ within_root p a.
Proof.
  rewrite relative_to_spec. unfold within_root, is_descendant. split.
  - intros [Hr [[|seg rest] Ht]].
    + left. rewrite app_nil_r in Ht. destruct p, a; simpl in *; congruence.
    + right; eauto.
  - intros [->|[Hr (seg & rest & Ht)]]; [|eauto].
    split; [done|]. exists []. by rewrite app_nil_r.
Qed.

Lemma validate_resolved (w : World) (p a rp ra : Path) :
  fs_resolve w p = Ok rp → fs_resolve w a = Ok ra →
  validate_repo_path w p (Some a)
  = match relative_to rp ra with
    | Some _ => Ok tt
    | None => Raise (PathOutsideAllowedRoot p a)
    end.
Proof. intros Hp Ha. unfold validate_repo_path. by rewrite Hp, Ha. Qed.

(** The two failures of the guard are different exceptions. *)
Lemma guard_errors_distinct (p q a : Path) :
  InvalidPath p ≠ PathOutsideAllowedRoot q a.
Proof. discriminate. Qed.

(** An exception of [resolve] that the [except] clause does not catch
    leaves the guard unchanged. *)
Lemma validate_repo_path_uncaught (w : World) (p a : Path) (e : exn) :
  is_OSError_or_RuntimeError e = false →
  fs_resolve w p = Raise e ∨ (∃ rp, fs_resolve w p = Ok rp ∧ fs_resolve w a = Raise e) →
  validate_repo_path w p (Some a) = Raise e.
Proof.
  intros He H. unfold validate_repo_path, resolve_failed.
  destruct H as [->|[rp [-> ->]]]; by rewrite He.
Qed.

(** C1 (amended).  PathGuard: without an allowed root every candidate
    passes.  With an allowed root, when both paths resolve, the guard
    passes exactly when the canonical candidate is the canonical root or a
    descendant of it by whole segments, and raises
    [PathOutsideAllowedRoot] otherwise; a sibling such as [/allowed-other]
    is refused under [/allowed] although its text starts with the root's
    text; when resolving the candidate, or after it the root, raises
    [OSError] or [RuntimeError], the guard raises [InvalidPath]. *)
Theorem validate_repo_path_correct (w : World) (p : Path) :
  validate_repo_path w p None = Ok tt
  ∧ (∀ a rp ra,
       fs_resolve w p = Ok rp → fs_resolve w a = Ok ra →
       (validate_repo_path w p (Some a) = Ok tt ↔ within_root rp ra)
       ∧ (¬ within_root rp ra →
          validate_repo_path w p (Some a)
          = Raise (PathOutsideAllowedRoot p a)))
  ∧ (∀ a,
       fs_resolve w p = Ok (Path_of "/allowed-other") →
       fs_resolve w a = Ok (Path_of "/allowed") →
       String.prefix "/allowed" "/allowed-other" = true
       ∧ validate_repo_path w p (Some a) = Raise (PathOutsideAllowedRoot p a))
  ∧ (∀ a e,
       is_OSError_or_RuntimeError e = true →
       fs_resolve w p = Raise e
       ∨ (∃ rp, fs_resolve w p = Ok rp ∧ fs_resolve w a = Raise e) →
       validate_repo_path w p (Some a) = Raise (InvalidPath p)).
Proof.
  split; [done|]. split; [|split].
  - intros a rp ra Hp Ha. rewrite (validate_resolved w p a rp ra Hp Ha).
    rewrite <- relative_to_within_root.
    destruct (relative_to rp ra) as [rel|]; split.
    + split; eauto.
    + intros Hn. destruct Hn. eauto.
    + split; [discriminate | intros [? ?]; discriminate].
    + done.
  - intros a Hp Ha. rewrite (validate_resolved w p a _ _ Hp Ha). done.
  - intros a e He H. unfold validate_repo_path, resolve_failed.
    destruct H as [->|[rp [-> ->]]]; by rewrite He.
Qed.

Lemma validate_repo_path_correct_witness :
  validate_repo_path Demo.world (Path_of "/repos/proj/sub")
    (Some (Path_of "/repos/proj")) = Ok tt
  ∧ validate_repo_path Demo.world (Path_of "/etc")
      (Some (Path_of "/repos/proj"))
    = Raise (PathOutsideAllowedRoot (Path_of "/etc") (Path_of "/repos/proj"))
  ∧ validate_repo_path Demo.world (Path_of "/allowed-other")
      (Some (Path_of "/allowed"))
    = Raise (PathOutsideAllowedRoot (Path_of "/allowed-other")
               (Path_of "/allowed"))
  ∧ validate_repo_path Demo.world (Path_of "/repos/loop/x")
      (Some (Path_of "/repos/proj"))
    = Raise (InvalidPath (Path_of "/repos/loop/x")).
Proof.
  split; [|split; [|split]].
  - destruct (validate_repo_path_correct Demo.world (Path_of "/repos/proj/sub"))
      as (_ & H & _).
    apply (H (Path_of "/repos/proj") (Path_of "/repos/proj/sub")
             (Path_of "/repos/proj") eq_refl eq_refl).
    right. split; [reflexivity|]. by exists "sub", [].
  - destruct (validate_repo_path_correct Demo.world (Path_of "/etc"))
      as (_ & H & _).
    apply (H (Path_of "/repos/proj") (Path_of "/etc")
             (Path_of "/repos/proj") eq_refl eq_refl).
    intros [Heq|[_ (seg & rest & Ht)]]; [discriminate Heq | discriminate Ht].
  - destruct (validate_repo_path_correct Demo.world (Path_of "/allowed-other"))
      as (_ & _ & H & _).
    apply (H (Path_of "/allowed") eq_refl eq_refl).
  - destruct (validate_repo_path_correct Demo.world (Path_of "/repos/loop/x"))
      as (_ & _ & _ & H).
    apply (H (Path_of "/repos/proj") (RuntimeError "Symlink loop"));
      [reflexivity | left; reflexivity].
Defined.

(** A candidate that cannot be resolved, and no [InvalidPath]: a segment
    with a NUL character makes [resolve] raise [ValueError], which the
    [except] clause does not name. *)
Lemma unresolvable_path_other_error :
  fs_resolve Scenario.nul_world
    (Path_of ("/repos/proj/a" +:+ Scenario.nul_segment))
  = Raise (ValueError "embedded null byte")
  ∧ validate_repo_path Scenario.nul_world
      (Path_of ("/repos/proj/a" +:+ Scenario.nul_segment))
      (Some (Path_of "/repos/proj"))
    = Raise (ValueError "embedded null byte")
  ∧ ValueError "embedded null byte"
    ≠ InvalidPath (Path_of ("/repos/proj/a" +:+ Scenario.nul_segment)).
Proof. repeat split. discriminate. Qed.

(** The guard decides on the canonical path: a candidate that is written
    below the root and leaves it through [..] is refused. *)
Example dot_dot_leaves_the_root :
  validate_repo_path Demo.world (Path_of "/repos/proj/../../etc")
    (Some (Path_of "/repos/proj"))
  = Raise (PathOutsideAllowedRoot (Path_of "/repos/proj/../../etc")
             (Path_of "/repos/proj")).
Proof. reflexivity. Qed.

End PathGuard.

(** ** Dispatcher *)

Section Dispatcher.

Context (w : World) (repository : option Path).

(** Reading of the computations of [Py] that start with a pure step. *)
Lemma bind_lift_ok {A B} (a : A) (k : A → Py B) : lift (Ok a) ≫= k = k a.
Proof. unfold lift, mbind, Py_bind. by destruct (k a). Qed.

Lemma bind_lift_raise {A B} (e : exn) (k : A → Py B) :
  lift (Raise e) ≫= k = ([], Raise e).
Proof. done. Qed.

Lemma bind_call_ok {A B} (ev : Event) (a : A) (k : A → Py B) :
  call ev (Ok a) ≫= k = (ev :: trace (k a), outcome (k a)).
Proof. unfold call, mbind, Py_bind. by destruct (k a). Qed.

Lemma bind_call_raise {A B} (ev : Event) (e : exn) (k : A → Py B) :
  call ev (Raise e) ≫= k = ([ev], Raise e).
Proof. done. Qed.

Lemma call_tool_dispatch_path (name : string) (arguments : gmap string Value) :
  dispatch_path w repository name arguments
    (call_tool w repository name arguments).
Proof.
  unfold call_tool.
  destruct (getitem arguments "repo_path" ≫= expect_str) as [raw|e] eqn:Hraw.
  2: { rewrite bind_lift_raise. by apply no_repo_path. }
  assert (arguments !! "repo_path" = Some (VStr raw)) as Hkey.
  { unfold getitem in Hraw. destruct (arguments !! "repo_path") as [[]|];
      simpl in Hraw; congruence. }
  rewrite bind_lift_ok.
  destruct (validate_repo_path w (Path_of raw) repository) as [[]|e] eqn:Hv.
  2: { rewrite bind_lift_raise. by eapply guard_refused. }
  rewrite bind_lift_ok. unfold open_repo.
  destruct (Repo_open w (path_str (Path_of raw))) as [repo|e] eqn:Ho.
  - rewrite bind_call_ok. by eapply dispatched.
  - rewrite bind_call_raise. by eapply open_failed.
Qed.

(** C2.  The dispatcher runs the guard on the extracted [repo_path]
    before anything else: when the guard raises, the request ends with
    that exception and not a single call was made (no repository opened,
    no command run); and whenever the request made any call at all, the
    guard had accepted the path and the first call opened exactly that
    path. *)
Theorem call_tool_guard_first (name : string) (arguments : gmap string Value) :
  (∀ raw e,
     arguments !! "repo_path" = Some (VStr raw) →
     validate_repo_path w (Path_of raw) repository = Raise e →
     call_tool w repository name arguments = ([], Raise e))
  ∧ (∀ ev,
       ev ∈ trace (call_tool w repository name arguments) →
       ∃ raw,
         arguments !! "repo_path" = Some (VStr raw)
         ∧ validate_repo_path w (Path_of raw) repository = Ok tt
         ∧ head (trace (call_tool w repository name arguments))
           = Some (EvRepo (path_str (Path_of raw)))).
Proof.
  split.
  - intros raw e Hkey Hv.
    destruct (call_tool_dispatch_path name arguments)
      as [e' Hraw|raw' e' Hkey' Hv'|raw' e' Hkey' Hv' _|raw' repo Hkey' Hv' _].
    + unfold getitem in Hraw. rewrite Hkey in Hraw. discriminate.
    + congruence.
    + congruence.
    + congruence.
  - intros ev Hev.
    destruct (call_tool_dispatch_path name arguments)
      as [e' Hraw|raw' e' Hkey' Hv'|raw' e' Hkey' Hv' _|raw' repo Hkey' Hv' _];
      simpl in *.
    + by apply elem_of_nil in Hev.
    + by apply elem_of_nil in Hev.
    + eauto.
    + eauto.
Qed.

End Dispatcher.

Lemma call_tool_guard_first_witness :
  call_tool Demo.world (Some (Path_of "/repos/proj")) "git_status"
    {[ "repo_path" := VStr "/etc" ]}
  = ([], Raise (PathOutsideAllowedRoot (Path_of "/etc") (Path_of "/repos/proj"))).
Proof.
  destruct (call_tool_guard_first Demo.world (Some (Path_of "/repos/proj"))
              "git_status" {[ "repo_path" := VStr "/etc" ]}) as [H _].
  apply (H "/etc").
  - vm_compute. reflexivity.
  - vm_compute. reflexivity.
Defined.

(** The request of the specification's first scenario goes through. *)
Example status_inside_allowed_root :
  call_tool Demo.world (Some (Path_of "/repos/proj")) "git_status"
    {[ "repo_path" := VStr "/repos/proj/sub" ]}
  = ([EvRepo "/repos/proj/sub";
      EvGit {| working_dir := "/repos/proj/sub" |} "status" []],
     Ok (reply "Repository status:
git status")).
Proof. vm_compute. reflexivity. Qed.

(** ** CommandBuilder: flag injection *)

Section FlagInjection.

Context (w : World) (repo : Repo).

Lemma startswith_dash_cons (rest : string) :
  startswith_dash ("-" +:+ rest) = true.
Proof. done. Qed.

Lemma startswith_dash_inv (s : string) :
  startswith_dash s = true → ∃ rest, s = "-" +:+ rest.
Proof.
  destruct s as [|c s]; simpl; [done|].
  destruct (Ascii.eqb_spec c "-") as [->|]; [|done]. by exists s.
Qed.

Lemma truthy_dash (rest : string) : truthy_str (Some ("-" +:+ rest)) = true.
Proof. done. Qed.

(** C3.  A diff target, a diff base or a checkout target that begins
    with [-] makes the operation raise [BadName] with an "Invalid ..."
    message while its trace is still empty: no [rev_parse] and no git
    command has been issued. *)
Theorem dash_prefixed_revision_rejected (rest : string) :
  (∀ base merge_base context_lines ignore_whitespace paths,
     git_diff w repo ("-" +:+ rest) base merge_base context_lines
       ignore_whitespace paths
     = ([], Raise (BadName ("Invalid target: '" +:+ ("-" +:+ rest)
                            +:+ "' - cannot start with '-'"))))
  ∧ (∀ target merge_base context_lines ignore_whitespace paths,
       startswith_dash target = false →
       git_diff w repo target (Some ("-" +:+ rest)) merge_base context_lines
         ignore_whitespace paths
       = ([], Raise (BadName ("Invalid base: '" +:+ ("-" +:+ rest)
                              +:+ "' - cannot start with '-'"))))
  ∧ (∀ target merge_base context_lines ignore_whitespace paths,
       ∃ msg,
         git_diff w repo target (Some ("-" +:+ rest)) merge_base
           context_lines ignore_whitespace paths
         = ([], Raise (BadName msg)))
  ∧ git_checkout w repo ("-" +:+ rest)
    = ([], Raise (BadName ("Invalid branch name: '" +:+ ("-" +:+ rest)
                           +:+ "' - cannot start with '-'"))).
Proof.
  assert (∀ target merge_base context_lines ignore_whitespace paths,
       startswith_dash target = false →
       git_diff w repo target (Some ("-" +:+ rest)) merge_base context_lines
         ignore_whitespace paths
       = ([], Raise (BadName ("Invalid base: '" +:+ ("-" +:+ rest)
                              +:+ "' - cannot start with '-'")))) as Hbase.
  { intros target mb cl iw paths Ht. unfold git_diff.
    by rewrite Ht, truthy_dash. }
  split; [|split; [|split]].
  - intros. unfold git_diff. by rewrite startswith_dash_cons.
  - exact Hbase.
  - intros target mb cl iw paths.
    destruct (startswith_dash target) eqn:Ht.
    + apply startswith_dash_inv in Ht as [rest' ->].
      eexists. unfold git_diff. by rewrite startswith_dash_cons.
    + eexists. by apply Hbase.
  - unfold git_checkout. by rewrite startswith_dash_cons.
Qed.

End FlagInjection.

Lemma dash_prefixed_revision_rejected_witness :
  git_diff Demo.world Demo.repo "main" (Some "--output=/tmp/x") true 3 false None
  = ([], Raise (BadName "Invalid base: '--output=/tmp/x' - cannot start with '-'")).
Proof.
  destruct (dash_prefixed_revision_rejected Demo.world Demo.repo
              "-output=/tmp/x") as (_ & H & _).
  apply (H "main"). reflexivity.
Defined.

(** Through the dispatcher the repository has been opened by then, and
    nothing follows. *)
Example checkout_dash_through_dispatcher :
  call_tool Demo.world None "git_checkout"
    {[ "repo_path" := VStr "/repos/proj"; "branch_name" := VStr "-f" ]}
  = ([EvRepo "/repos/proj"],
     Raise (BadName "Invalid branch name: '-f' - cannot start with '-'")).
Proof. vm_compute. reflexivity. Qed.

(** Without the dash both refs are resolved and the command runs. *)
Example diff_between_refs :
  git_diff Demo.world Demo.repo "feature" (Some "main") true 3 false None
  = ([EvRevParse Demo.repo "feature"; EvRevParse Demo.repo "main";
      EvGit Demo.repo "diff" ["--unified=3"; "main...feature"]],
     Ok "git diff --unified=3 main...feature").
Proof. vm_compute. reflexivity. Qed.

(** ** CommandBuilder: argument lists *)

Section ArgumentLists.

Context (w : World) (repo : Repo).

Lemma omap_id_Some (l : list string) : omap id (Some <$> l) = l.
Proof. induction l as [|x l IH]; [done|]. cbn. by f_equal. Qed.

Lemma git_all_present (cmd : string) (args : list string) :
  git w repo cmd (Some <$> args)
  = call (EvGit repo cmd args) (repo_git w repo cmd args).
Proof. unfold git. by rewrite omap_id_Some. Qed.

Lemma trace_bind_call {A B} (ev : Event) (r : result A) (k : A → Py B) :
  (∀ a, trace (k a) = []) → trace (call ev r ≫= k) = [ev].
Proof.
  intros Hk. destruct r as [a|e].
  - rewrite bind_call_ok. simpl. by rewrite Hk.
  - by rewrite bind_call_raise.
Qed.

Lemma outcome_bind_call_ret {A B} (ev : Event) (r : result A) (f : A → B) :
  outcome (call ev r ≫= λ a, mret (f a)) = (r ≫= λ a, Ok (f a)).
Proof. by destruct r. Qed.

Lemma path_filter_after_separator (paths : option (list string)) :
  path_filter paths = after_separator paths.
Proof. by destruct paths as [[|p ps]|]. Qed.

Lemma truthy_str_nonempty (s : string) : s ≠ "" → truthy_str (Some s) = true.
Proof. intros Hs. simpl. by destruct (String.eqb_spec s ""). Qed.

(** When both refs pass the checks, [git diff] is run on [git_diff_args]. *)
Lemma git_diff_runs (target : string) (base : option string)
    (merge_base : bool) (context_lines : Z) (ignore_whitespace : bool)
    (paths : option (list string)) :
  startswith_dash target = false →
  startswith_dash (default "" base) = false →
  repo_rev_parse w repo target = Ok tt →
  repo_rev_parse w repo (default "" base) = Ok tt →
  let args := git_diff_args target base merge_base context_lines
                ignore_whitespace paths in
  last (trace (git_diff w repo target base merge_base context_lines
                 ignore_whitespace paths))
  = Some (EvGit repo "diff" args)
  ∧ outcome (git_diff w repo target base merge_base context_lines
               ignore_whitespace paths)
    = repo_git w repo "diff" args.
Proof.
  intros Ht Hb Hrt Hrb args. unfold git_diff.
  rewrite Ht, Hb, andb_false_r, git_all_present. unfold rev_parse.
  rewrite Hrt, bind_call_ok.
  destruct (truthy_str base).
  - rewrite Hrb, bind_call_ok. simpl. by destruct (repo_git w repo "diff" _).
  - simpl. by destruct (repo_git w repo "diff" _).
Qed.

(** C4 (amended).  The argument list of the diff: the context-line
    option first (then [-w] when whitespace is ignored); then, for a
    non-empty base [B] and target [T], the single range [B...T] in
    merge-base mode and the two refs [B] then [T] otherwise; for a base
    that is unset or the empty string, [T] alone; last, a non-empty path
    filter behind [--]. *)
Theorem git_diff_args_revisions (target : string) (context_lines : Z)
    (ignore_whitespace : bool) (paths : option (list string)) :
  (∀ base, base ≠ "" →
     git_diff_args target (Some base) true context_lines ignore_whitespace
       paths
     = diff_options context_lines ignore_whitespace
         ++ [base +:+ "..." +:+ target] ++ after_separator paths)
  ∧ (∀ base, base ≠ "" →
       git_diff_args target (Some base) false context_lines
         ignore_whitespace paths
       = diff_options context_lines ignore_whitespace
           ++ [base; target] ++ after_separator paths)
  ∧ (∀ base merge_base, base = None ∨ base = Some "" →
       git_diff_args target base merge_base context_lines ignore_whitespace
         paths
       = diff_options context_lines ignore_whitespace
           ++ [target] ++ after_separator paths).
Proof.
  unfold git_diff_args, diff_options. split; [|split].
  - intros base Hb. rewrite (truthy_str_nonempty base Hb).
    rewrite path_filter_after_separator.
    destruct ignore_whitespace; simpl; reflexivity.
  - intros base Hb. rewrite (truthy_str_nonempty base Hb).
    rewrite path_filter_after_separator.
    destruct ignore_whitespace; simpl; reflexivity.
  - intros base mb [->| ->]; rewrite path_filter_after_separator;
      destruct ignore_whitespace; simpl; reflexivity.
Qed.

(** C5.  [git_add] issues one [git add]: with the single argument [.]
    when the file list is exactly [["."]], and otherwise with [--]
    followed by every entry of the list, whatever its first character.
    It answers "Files staged successfully" when that command succeeds. *)
Theorem git_add_separator (files : list string) :
  trace (git_add w repo ["."]) = [EvGit repo "add" ["."]]
  ∧ (files ≠ ["."] →
     trace (git_add w repo files) = [EvGit repo "add" ("--" :: files)])
  ∧ outcome (git_add w repo files)
    = (repo_git w repo "add" (if bool_decide (files = ["."]) then ["."]
                              else "--" :: files)
       ≫= λ _, Ok "Files staged successfully").
Proof.
  split; [|split].
  - unfold git_add. rewrite bool_decide_eq_true_2 by done.
    change [Some "."] with (Some <$> ["."]). rewrite git_all_present.
    by apply trace_bind_call.
  - intros Hne. unfold git_add. rewrite bool_decide_eq_false_2 by done.
    change (Some "--" :: (Some <$> files)) with (Some <$> "--" :: files).
    rewrite git_all_present. by apply trace_bind_call.
  - unfold git_add. case_bool_decide.
    + change [Some "."] with (Some <$> ["."]). rewrite git_all_present.
      by destruct (repo_git w repo "add" ["."]).
    + change (Some "--" :: (Some <$> files)) with (Some <$> "--" :: files).
      rewrite git_all_present.
      by destruct (repo_git w repo "add" ("--" :: files)).
Qed.

End ArgumentLists.

Lemma git_diff_args_revisions_witness :
  git_diff_args "feature" (Some "main") true 3 true (Some ["src"; "-x"])
  = ["--unified=3"; "-w"; "main...feature"; "--"; "src"; "-x"].
Proof.
  destruct (git_diff_args_revisions "feature" 3 true (Some ["src"; "-x"]))
    as [H _].
  apply (H "main"). discriminate.
Defined.

(** With the empty string as base and merge-base mode on, the code asks
    for the single-ref comparison: no three-dot range is built. *)
Lemma diff_empty_base_is_single_ref :
  git_diff Demo.world Demo.repo "feature" (Some "") true 3 false None
  = ([EvRevParse Demo.repo "feature";
      EvGit Demo.repo "diff" ["--unified=3"; "feature"]],
     Ok "git diff --unified=3 feature")
  ∧ "" +:+ "..." +:+ "feature"
    ∉ git_diff_args "feature" (Some "") true 3 false None.
Proof.
  split; [vm_compute; reflexivity|].
  intros Hin. vm_compute in Hin.
  apply elem_of_cons in Hin as [Hin|Hin]; [discriminate|].
  apply elem_of_cons in Hin as [Hin|Hin]; [discriminate|].
  by apply elem_of_nil in Hin.
Qed.

Lemma git_add_separator_witness :
  trace (git_add Demo.world Demo.repo ["a.txt"; "-x"])
  = [EvGit Demo.repo "add" ["--"; "a.txt"; "-x"]].
Proof.
  destruct (git_add_separator Demo.world Demo.repo ["a.txt"; "-x"])
    as (_ & H & _).
  apply H. discriminate.
Defined.

(** ** CommandBuilder: branch listing and commit authorship *)

Section BranchAndCommit.

Context (w : World) (repo : Repo).

Lemma branch_scope_other (branch_type : string) :
  branch_type ≠ "local" → branch_type ≠ "remote" → branch_type ≠ "all" →
  branch_scope branch_type = None.
Proof.
  intros Hl Hr Ha. unfold branch_scope.
  destruct (String.eqb_spec branch_type "local"); [done|].
  destruct (String.eqb_spec branch_type "remote"); [done|].
  by destruct (String.eqb_spec branch_type "all").
Qed.

(** C6.  A branch scope other than [local], [remote] and [all] makes
    [git_branch] return the text "Invalid branch type: <value>"; nothing
    is raised and its trace is empty: no git command was run. *)
Theorem git_branch_invalid_scope (branch_type : string)
    (contains not_contains : option string) :
  branch_type ≠ "local" → branch_type ≠ "remote" → branch_type ≠ "all" →
  git_branch w repo branch_type contains not_contains
  = ([], Ok ("Invalid branch type: " +:+ branch_type)).
Proof.
  intros Hl Hr Ha. unfold git_branch.
  by rewrite (branch_scope_other branch_type Hl Hr Ha).
Qed.

(** The three scopes do reach [git branch]. *)
Lemma git_branch_valid_scope (branch_type : string) (b_type : option string)
    (contains not_contains : option string) :
  branch_scope branch_type = Some b_type →
  ∃ argv, git_branch w repo branch_type contains not_contains
          = call (EvGit repo "branch" argv) (repo_git w repo "branch" argv).
Proof. intros Hs. unfold git_branch. rewrite Hs. by eexists. Qed.

Lemma git_commit_trace (msg : string) (author_name author_email : option string) :
  trace (git_commit w repo msg author_name author_email)
  = [EvIndexCommit repo msg (commit_author author_name author_email)].
Proof. unfold git_commit. by apply trace_bind_call. Qed.

Lemma commit_author_Some (author_name author_email : option string)
    (who : Actor) :
  commit_author author_name author_email = Some who →
  author_name = Some (actor_name who) ∧ author_email = Some (actor_email who)
  ∧ actor_name who ≠ "" ∧ actor_email who ≠ "".
Proof.
  unfold commit_author.
  destruct author_name as [n|], author_email as [e|]; simpl;
    try discriminate.
  - destruct (String.eqb_spec n ""), (String.eqb_spec e ""); simpl;
      try discriminate.
    intros [= <-]. done.
  - by rewrite andb_false_r.
Qed.

(** C7.  [repo.index.commit] receives a custom author only when both
    the author name and the author email were given; when exactly one of
    them is given it receives [author=None], which leaves the author to
    the configured identity. *)
Theorem git_commit_author_needs_both (msg : string)
    (author_name author_email : option string) :
  (∀ who,
     EvIndexCommit repo msg (Some who)
       ∈ trace (git_commit w repo msg author_name author_email) →
     author_name = Some (actor_name who)
     ∧ author_email = Some (actor_email who))
  ∧ ((author_name = None ∧ is_Some author_email)
     ∨ (is_Some author_name ∧ author_email = None) →
     trace (git_commit w repo msg author_name author_email)
     = [EvIndexCommit repo msg None]).
Proof.
  rewrite git_commit_trace. split.
  - intros who Hin. apply list_elem_of_singleton in Hin.
    injection Hin as Hwho. symmetry in Hwho.
    apply commit_author_Some in Hwho. tauto.
  - intros [[-> _]|[_ ->]]; [done|].
    unfold commit_author. by rewrite andb_false_r.
Qed.

Lemma commit_author_empty (n e : string) :
  n = "" ∨ e = "" → commit_author (Some n) (Some e) = None.
Proof.
  intros [-> | ->]; unfold commit_author; simpl; [done|].
  by rewrite andb_false_r.
Qed.

(** C10.  A commit request whose [author_name] and [author_email] are
    both present, one of them being the empty string, builds no custom
    author: it behaves exactly as the same request with the two fields
    left out, and [repo.index.commit] is called with [author=None]. *)
Theorem commit_empty_author_same_as_omitted (arguments : gmap string Value)
    (n e : string) :
  arguments !! "author_name" = Some (VStr n) →
  arguments !! "author_email" = Some (VStr e) →
  n = "" ∨ e = "" →
  commit_author (Some n) (Some e) = None
  ∧ run_tool w repo "git_commit" arguments
    = run_tool w repo "git_commit"
        (delete "author_name" (delete "author_email" arguments))
  ∧ (∀ msg, arguments !! "message" = Some (VStr msg) →
       trace (run_tool w repo "git_commit" arguments)
       = [EvIndexCommit repo msg None]).
Proof.
  intros Hn He Hempty.
  pose proof (commit_author_empty n e Hempty) as Hauthor.
  split; [done|].
  set (omitted := delete "author_name" (delete "author_email" arguments)).
  assert (omitted !! "message" = arguments !! "message") as Hm.
  { unfold omitted. by rewrite !lookup_delete_ne. }
  assert (omitted !! "author_name" = None) as Hon.
  { apply lookup_delete_eq. }
  assert (omitted !! "author_email" = None) as Hoe.
  { unfold omitted. rewrite lookup_delete_ne by done. apply lookup_delete_eq. }
  unfold run_tool.
  change (match_name "git_commit") with (Some COMMIT). cbv iota.
  unfold getitem. rewrite Hm, Hon, Hoe, Hn, He.
  destruct (arguments !! "message") as [v|].
  2: { split; [done | discriminate]. }
  destruct (expect_str v) as [msg|err] eqn:Hv.
  2: { split; [by cbn; rewrite Hv|]. intros msg [= ->]. discriminate. }
  assert (lift (Ok v ≫= expect_str) = lift (Ok msg)) as -> by (by cbn; rewrite Hv).
  rewrite !bind_lift_ok. cbn [expect_opt_str]. rewrite !bind_lift_ok.
  unfold git_commit. rewrite Hauthor. split; [done|].
  intros msg' [= ->]. injection Hv as ->.
  by destruct (repo_index_commit w repo msg None).
Qed.

End BranchAndCommit.

Lemma git_branch_invalid_scope_witness :
  git_branch Demo.world Demo.repo "bogus" None None
  = ([], Ok "Invalid branch type: bogus").
Proof.
  apply (git_branch_invalid_scope Demo.world Demo.repo "bogus" None None);
    discriminate.
Defined.

(** The scenario of the specification, through the dispatcher: the
    repository is opened, no command follows. *)
Example branch_list_bogus :
  call_tool Demo.world None "git_branch"
    {[ "repo_path" := VStr "/repos/proj"; "branch_type" := VStr "bogus" ]}
  = ([EvRepo "/repos/proj"], Ok (reply "Invalid branch type: bogus")).
Proof. vm_compute. reflexivity. Qed.

Lemma git_commit_author_needs_both_witness :
  trace (git_commit Demo.world Demo.repo "fix" (Some "Ada") None)
  = [EvIndexCommit Demo.repo "fix" None].
Proof.
  destruct (git_commit_author_needs_both Demo.world Demo.repo "fix"
              (Some "Ada") None) as [_ H].
  apply H. right. split; [by eexists | reflexivity].
Defined.

Example commit_with_both_author_fields :
  trace (git_commit Demo.world Demo.repo "fix" (Some "Ada")
           (Some "ada@example.org"))
  = [EvIndexCommit Demo.repo "fix" (Some (mkActor "Ada" "ada@example.org"))].
Proof. reflexivity. Qed.

Lemma commit_empty_author_same_as_omitted_witness :
  trace (run_tool Demo.world Demo.repo "git_commit"
           {[ "message" := VStr "fix"; "author_name" := VStr "Ada";
              "author_email" := VStr "" ]})
  = [EvIndexCommit Demo.repo "fix" None].
Proof.
  destruct (commit_empty_author_same_as_omitted Demo.world Demo.repo
              {[ "message" := VStr "fix"; "author_name" := VStr "Ada";
                 "author_email" := VStr "" ]} "Ada" "")
    as (_ & _ & H).
  - vm_compute. reflexivity.
  - vm_compute. reflexivity.
  - right. reflexivity.
  - apply (H "fix"). vm_compute. reflexivity.
Defined.

(** ** CommandBuilder: show *)

Section StringAppend.

Lemma append_empty_r (s : string) : s +:+ "" = s.
Proof.
  induction s as [|c s IH]; [done|].
  change (String c (s +:+ "") = String c s). by f_equal.
Qed.

Lemma append_assoc (s t u : string) : (s +:+ t) +:+ u = s +:+ (t +:+ u).
Proof.
  induction s as [|c s IH]; [done|].
  change (String c ((s +:+ t) +:+ u) = String c (s +:+ (t +:+ u))).
  by f_equal.
Qed.

Lemma concat_empty_cons (s : string) (l : list string) :
  String.concat "" (s :: l) = s +:+ String.concat "" l.
Proof.
  destruct l as [|s' l]; [|done].
  symmetry. apply append_empty_r.
Qed.

Lemma concat_empty_app (l k : list string) :
  String.concat "" (l ++ k) = String.concat "" l +:+ String.concat "" k.
Proof.
  induction l as [|s l IH]; [done|].
  change ((s :: l) ++ k) with (s :: (l ++ k)).
  by rewrite !concat_empty_cons, IH, append_assoc.
Qed.

End StringAppend.

Section ShowCommit.

Context (w : World) (repo : Repo).

Lemma git_show_unfold (revision : string) (commit : Commit) (a b : TreeIsh) :
  repo_commit w repo revision = Ok commit →
  show_diff_request commit = (a, b) →
  git_show w repo revision
  = ([EvCommit repo revision; EvDiff repo a b], show_output w repo commit a b).
Proof.
  intros Hc Hreq. unfold git_show, show_output.
  rewrite Hc, bind_call_ok, Hreq.
  destruct (repo_diff w repo a b) as [ds|e]; [|done].
  rewrite bind_call_ok. cbn.
  by destruct (show_entries w [show_header w commit] ds).
Qed.

(** Entries whose patch is text are appended as they are. *)
Lemma show_entries_text (output : list string) (ds : list (Diff * string)) :
  Forall (λ ds, diff ds.1 = Some (DiffStr ds.2)) ds →
  show_entries w output ds.*1
  = Ok (output ++ concat ((λ ds, entry_text ds.1 ds.2) <$> ds)).
Proof.
  revert output. induction ds as [|[d s] ds IH]; intros output Hall; simpl.
  - by rewrite app_nil_r.
  - apply Forall_cons in Hall as [Hd Hall]. simpl in Hd.
    unfold show_entry. rewrite Hd. cbn.
    rewrite (IH _ Hall). by rewrite <- app_assoc.
Qed.

Lemma show_entry_block (d : Diff) (patch : string) :
  patch_shown w d patch →
  ∃ piece, show_entry w d = Ok piece
           ∧ String.concat "" piece = entry_block d patch.
Proof.
  unfold show_entry, entry_block, entry_paths_line.
  intros [Hd|s Hd|b s Hd Hdec]; rewrite Hd.
  - eexists. split; [done|]. cbn [String.concat]. by rewrite append_empty_r.
  - eexists. split; [done|]. by rewrite concat_empty_cons.
  - rewrite Hdec. eexists. split; [done|]. by rewrite concat_empty_cons.
Qed.

Lemma show_entries_blocks (ds : list Diff) (patches output : list string) :
  Forall2 (patch_shown w) ds patches →
  ∃ result,
    show_entries w output ds = Ok result
    ∧ String.concat "" result
      = String.concat "" output
        +:+ String.concat "" (zip_with entry_block ds patches).
Proof.
  intros Hall. revert output.
  induction Hall as [|d patch ds patches Hd _ IH]; intros output.
  - exists output. split; [done|]. cbn. by rewrite append_empty_r.
  - apply show_entry_block in Hd as (piece & Hpiece & Hblock).
    destruct (IH (output ++ piece)) as (result & Hres & Htext).
    exists result. split.
    + cbn [show_entries]. rewrite Hpiece. exact Hres.
    + rewrite Htext, concat_empty_app, Hblock, append_assoc.
      cbn [zip_with]. by rewrite concat_empty_cons.
Qed.

Lemma show_output_text (commit : Commit) (a b : TreeIsh) (ds : list Diff)
    (patches : list string) :
  repo_diff w repo a b = Ok ds →
  Forall2 (patch_shown w) ds patches →
  show_output w repo commit a b = Ok (shown_text w commit ds patches).
Proof.
  intros Hdiff Hall. unfold show_output, shown_text. rewrite Hdiff. cbn.
  destruct (show_entries_blocks ds patches [show_header w commit] Hall)
    as (result & -> & Htext).
  cbn. by rewrite Htext.
Qed.

(** C8.  [git_show] looks the revision up and then asks for one
    comparison: of the commit with the empty tree when the commit has no
    parents, and of the first parent with the commit otherwise.  When
    that comparison answers, the text is the commit header followed by
    every entry of the answer, in order and in full: the two path lines of
    the entry, then its patch (decoded when it comes in bytes).  When the
    comparison raises, so does [git_show]. *)
Theorem git_show_diff_base (revision : string) (commit : Commit) :
  repo_commit w repo revision = Ok commit →
  (parents commit = [] →
   trace (git_show w repo revision)
   = [EvCommit repo revision;
      EvDiff repo (OfCommit (hexsha commit)) NULL_TREE]
   ∧ (∀ ds patches,
        repo_diff w repo (OfCommit (hexsha commit)) NULL_TREE = Ok ds →
        Forall2 (patch_shown w) ds patches →
        outcome (git_show w repo revision)
        = Ok (shown_text w commit ds patches))
   ∧ (∀ e,
        repo_diff w repo (OfCommit (hexsha commit)) NULL_TREE = Raise e →
        outcome (git_show w repo revision) = Raise e))
  ∧ (∀ parent others,
       parents commit = parent :: others →
       trace (git_show w repo revision)
       = [EvCommit repo revision;
          EvDiff repo (OfCommit parent) (OfCommit (hexsha commit))]
       ∧ (∀ ds patches,
            repo_diff w repo (OfCommit parent) (OfCommit (hexsha commit))
            = Ok ds →
            Forall2 (patch_shown w) ds patches →
            outcome (git_show w repo revision)
            = Ok (shown_text w commit ds patches))
       ∧ (∀ e,
            repo_diff w repo (OfCommit parent) (OfCommit (hexsha commit))
            = Raise e →
            outcome (git_show w repo revision) = Raise e)).
Proof.
  intros Hc.
  assert (∀ a b, show_diff_request commit = (a, b) →
            trace (git_show w repo revision)
            = [EvCommit repo revision; EvDiff repo a b]
            ∧ (∀ ds patches,
                 repo_diff w repo a b = Ok ds →
                 Forall2 (patch_shown w) ds patches →
                 outcome (git_show w repo revision)
                 = Ok (shown_text w commit ds patches))
            ∧ (∀ e, repo_diff w repo a b = Raise e →
                 outcome (git_show w repo revision) = Raise e)) as Hboth.
  { intros a b Hreq. rewrite (git_show_unfold revision commit a b Hc Hreq).
    split; [done|]. split.
    - intros ds patches Hdiff Hall. by apply show_output_text.
    - intros e Hdiff. cbn. unfold show_output. by rewrite Hdiff. }
  split.
  - intros Hp. apply Hboth. unfold show_diff_request. by rewrite Hp.
  - intros parent others Hp. apply Hboth. unfold show_diff_request.
    by rewrite Hp.
Qed.

End ShowCommit.

Lemma git_show_diff_base_witness :
  git_show Demo.world Demo.repo "c0ffee"
  = ([EvCommit Demo.repo "c0ffee";
      EvDiff Demo.repo (OfCommit "c0ffee") NULL_TREE],
     Ok (shown_text Demo.world Demo.root_commit
           [Demo.readme_added] ["+hello"]))
  ∧ git_show Demo.world Demo.repo "decade"
    = ([EvCommit Demo.repo "decade";
        EvDiff Demo.repo (OfCommit "c0ffee") (OfCommit "decade")],
       Ok (shown_text Demo.world Demo.second_commit
             [Demo.readme_changed] ["-hello+bye"])).
Proof.
  split; apply injective_projections.
  - destruct (git_show_diff_base Demo.world Demo.repo "c0ffee"
                Demo.root_commit eq_refl) as [H _].
    apply H. reflexivity.
  - destruct (git_show_diff_base Demo.world Demo.repo "c0ffee"
                Demo.root_commit eq_refl) as [H _].
    destruct (H eq_refl) as (_ & Htext & _).
    apply (Htext [Demo.readme_added] ["+hello"] eq_refl).
    constructor; [by apply (bytes_patch _ _ "+hello") | constructor].
  - destruct (git_show_diff_base Demo.world Demo.repo "decade"
                Demo.second_commit eq_refl) as [_ H].
    apply (H "c0ffee" []). reflexivity.
  - destruct (git_show_diff_base Demo.world Demo.repo "decade"
                Demo.second_commit eq_refl) as [_ H].
    destruct (H "c0ffee" [] eq_refl) as (_ & Htext & _).
    apply (Htext [Demo.readme_changed] ["-hello+bye"] eq_refl).
    constructor; [by apply (bytes_patch _ _ "-hello+bye") | constructor].
Defined.

(** The root commit of the concrete world, shown in full. *)
Example show_root_commit :
  outcome (git_show Demo.world Demo.repo "c0ffee")
  = Ok "Commit: 'c0ffee'
Author: <Ada ada@example.org>
Date: datetime(0)
Message: 'initial'

--- None
+++ README
+hello".
Proof. vm_compute. reflexivity. Qed.

(** ** RepositoryResolver *)

Section Resolver.

Context (w : World) (repository : option Path).

Lemma collect_repos_outcome (roots repo_paths : list string) :
  Forall (classified w) roots →
  outcome (collect_repos w repo_paths roots)
  = Ok (repo_paths ++ filter (verifies w) roots).
Proof.
  revert repo_paths.
  induction roots as [|path roots IH]; intros repo_paths Hall.
  - simpl. by rewrite app_nil_r.
  - apply Forall_cons in Hall as [Hpath Hall].
    cbn [collect_repos]. unfold open_repo, try_except.
    destruct (Repo_open w path) as [repo|e] eqn:Hopen.
    + rewrite bind_call_ok. cbn [trace outcome mret Py_ret fst snd].
      rewrite filter_cons_True by (by exists repo).
      specialize (IH (repo_paths ++ [path]) Hall).
      unfold mbind, Py_bind.
      destruct (collect_repos w (repo_paths ++ [path]) roots) as [t r].
      simpl in *. rewrite IH. by rewrite <- app_assoc.
    + destruct (Hpath e Hopen) as [p ->].
      rewrite bind_call_raise.
      rewrite filter_cons_False by (intros [repo Hrepo]; congruence).
      specialize (IH repo_paths Hall).
      unfold mbind, Py_bind. cbn.
      destruct (collect_repos w repo_paths roots) as [t r].
      simpl in *. by rewrite IH.
Qed.

(** C9 (amended).  With a server session: when the session supports roots and
    advertises [roots], each of which opens or is refused as not a
    repository, [list_repos] returns the roots that open, in the order
    advertised, followed by the command-line repository when one was
    given; when the session does not support roots it returns the
    command-line repository alone.  Nothing is removed from the
    concatenation, so a root that is also the command-line repository
    appears twice. *)
Theorem list_repos_order (roots : list string) :
  session_is_ServerSession w = true →
  (session_roots_capability w = true →
   session_list_roots w = Ok roots →
   Forall (classified w) roots →
   outcome (list_repos w repository)
   = Ok (filter (verifies w) roots
         ++ match repository with
            | Some p => [path_str p]
            | None => []
            end))
  ∧ (session_roots_capability w = false →
     list_repos w repository
     = ([EvCheckCapability],
        Ok match repository with
           | Some p => [path_str p]
           | None => []
           end)).
Proof.
  intros Hs. unfold list_repos, by_roots. rewrite Hs. cbn [negb]. split.
  - intros Hcap Hroots Hall. rewrite Hcap, bind_call_ok. cbn [negb].
    rewrite Hroots, bind_call_ok.
    pose proof (collect_repos_outcome roots [] Hall) as Hout.
    unfold mbind, Py_bind.
    destruct (collect_repos w [] roots) as [t r]. simpl in *.
    rewrite Hout. by destruct repository.
  - intros Hcap. rewrite Hcap, bind_call_ok. cbn [negb].
    by destruct repository.
Qed.

End Resolver.

Lemma list_repos_order_witness :
  outcome (list_repos Demo.world (Some (Path_of "/repos/proj")))
  = Ok ["/repos/other"; "/repos/proj"; "/repos/proj"].
Proof.
  destruct (list_repos_order Demo.world (Some (Path_of "/repos/proj"))
              ["/repos/other"; "/tmp"; "/repos/proj"] eq_refl) as [H _].
  apply H; [reflexivity | reflexivity |].
  repeat apply Forall_cons_2; [| | | apply Forall_nil_2];
    intros e He; vm_compute in He; try discriminate He;
    injection He as <-; by eexists.
Defined.

(** A root that does not exist is not skipped: [git.Repo] raises
    [NoSuchPathError] for it, which [by_roots] does not handle, and the
    listing ends with that exception although the roots around it are
    repositories. *)
Lemma missing_root_fails_the_listing :
  Repo_open Scenario.missing_root "/repos/other"
  = Ok {| working_dir := "/repos/other" |}
  ∧ Repo_open Scenario.missing_root "/missing"
    = Raise (NoSuchPathError "/missing")
  ∧ Repo_open Scenario.missing_root "/repos/proj"
    = Ok {| working_dir := "/repos/proj" |}
  ∧ list_repos Scenario.missing_root None
    = ([EvCheckCapability; EvListRoots; EvRepo "/repos/other";
        EvRepo "/missing"],
       Raise (NoSuchPathError "/missing")).
Proof. repeat split. Qed.

(** An advertised root on which [git.Repo] raises another exception ends
    the listing with that exception. *)
Lemma collect_repos_propagates (w : World) (path : string)
    (roots repo_paths : list string) :
  Repo_open w path = Raise (NoSuchPathError path) →
  collect_repos w repo_paths (path :: roots)
  = ([EvRepo path], Raise (NoSuchPathError path)).
Proof. intros Hopen. simpl. unfold open_repo. by rewrite Hopen. Qed.

(** * Further properties of the dispatcher and the tools *)

(** ** Traces and values of composed computations *)

Section Composition.

Lemma trace_bind_ok {A B} (t : list Event) (a : A) (k : A → Py B) :
  trace ((t, Ok a) ≫= k) = t ++ trace (k a).
Proof. unfold mbind, Py_bind. by destruct (k a). Qed.

Lemma outcome_bind_ok {A B} (t : list Event) (a : A) (k : A → Py B) :
  outcome ((t, Ok a) ≫= k) = outcome (k a).
Proof. unfold mbind, Py_bind. by destruct (k a). Qed.

Lemma single_text_bind {A} (m : Py A) (k : A → Py (list TextContent)) :
  (∀ a, single_text (k a)) → single_text (m ≫= k).
Proof.
  destruct m as [t [a|e]]; intros Hk parts.
  - rewrite outcome_bind_ok. apply Hk.
  - discriminate.
Qed.

Lemma single_text_reply (s : string) : single_text (mret (reply s)).
Proof. intros parts [= <-]. by exists s. Qed.

Lemma single_text_raise (e : exn) : single_text (raise e).
Proof. intros parts. discriminate. Qed.

End Composition.

Ltac single_text_step :=
  first
    [ apply single_text_reply
    | apply single_text_raise
    | apply single_text_bind; intros ? ].

(** ** Dispatcher: catalog, failures, shape of the reply *)

Section DispatcherMore.

Context (w : World) (repository : option Path).

Lemma match_name_Some (name : string) (tool : GitTools) :
  match_name name = Some tool → name = GitTools_value tool.
Proof.
  unfold match_name. intros Hfind.
  apply List.find_some in Hfind as [_ Heq]. by apply String.eqb_eq in Heq.
Qed.

Lemma match_name_value (tool : GitTools) :
  match_name (GitTools_value tool) = Some tool.
Proof. by destruct tool. Qed.

Lemma advertised_iff_dispatched (name : string) :
  name ∈ tool_name <$> list_tools ↔ is_Some (match_name name).
Proof.
  split.
  - intros Hin. cbn in Hin.
    repeat (apply elem_of_cons in Hin as [->|Hin]; [by eexists|]).
    by apply elem_of_nil in Hin.
  - intros [tool Htool]. apply match_name_Some in Htool as ->.
    destruct tool; cbn; repeat constructor.
Qed.

(** X1.  The names [list_tools] advertises are pairwise different and are
    exactly the names [call_tool] has a case for; each is advertised with
    the fields of its own model. *)
Theorem catalog_matches_dispatch (name : string) :
  NoDup (tool_name <$> list_tools)
  ∧ (name ∈ tool_name <$> list_tools ↔ is_Some (match_name name))
  ∧ (∀ tool, match_name name = Some tool →
       advertised_schema name
       = Some match tool with
              | STATUS => GitStatus
              | DIFF_UNSTAGED => GitDiffUnstaged
              | DIFF_STAGED => GitDiffStaged
              | DIFF => GitDiff
              | COMMIT => GitCommit
              | ADD => GitAdd
              | RESET => GitReset
              | LOG => GitLog
              | CREATE_BRANCH => GitCreateBranch
              | CHECKOUT => GitCheckout
              | SHOW => GitShow
              | GREP => GitGrep
              | BRANCH => GitBranch
              end).
Proof.
  split; [|split].
  - apply (bool_decide_unpack _). vm_compute. exact I.
  - apply advertised_iff_dispatched.
  - intros tool Htool. apply match_name_Some in Htool as ->.
    by destruct tool.
Qed.

(** X2.  A name outside the catalog: the request is still checked and the
    repository still opened before the name is looked at, so the
    "Unknown tool" error is raised only for a path that passes the guard
    and opens, and no command is run for it. *)
Theorem call_tool_unknown_tool (name : string) (arguments : gmap string Value)
    (raw : string) :
  name ∉ tool_name <$> list_tools →
  arguments !! "repo_path" = Some (VStr raw) →
  validate_repo_path w (Path_of raw) repository = Ok tt →
  (∀ e, Repo_open w (path_str (Path_of raw)) = Raise e →
     call_tool w repository name arguments
     = ([EvRepo (path_str (Path_of raw))], Raise e))
  ∧ (∀ repo, Repo_open w (path_str (Path_of raw)) = Ok repo →
       call_tool w repository name arguments
       = ([EvRepo (path_str (Path_of raw))],
          Raise (ValueError ("Unknown tool: " +:+ name)))).
Proof.
  intros Hname Hkey Hv.
  assert (match_name name = None) as Hnone.
  { destruct (match_name name) as [tool|] eqn:Hm; [|done].
    destruct Hname. by apply advertised_iff_dispatched. }
  unfold call_tool, getitem. rewrite Hkey. cbn [mbind result_bind expect_str].
  rewrite bind_lift_ok, Hv, bind_lift_ok. unfold open_repo. split.
  - intros e ->. by rewrite bind_call_raise.
  - intros repo ->. rewrite bind_call_ok. unfold run_tool. by rewrite Hnone.
Qed.

(** A request without [repo_path] ends with [KeyError] before the guard,
    whatever the tool name and the allowed root. *)
Theorem call_tool_missing_repo_path (name : string)
    (arguments : gmap string Value) :
  arguments !! "repo_path" = None →
  call_tool w repository name arguments = ([], Raise (KeyError "repo_path")).
Proof. intros Hkey. unfold call_tool, getitem. by rewrite Hkey. Qed.

Lemma only_on_bind {A B} (repo : Repo) (m : Py A) (k : A → Py B) :
  only_on repo m → (∀ a, only_on repo (k a)) → only_on repo (m ≫= k).
Proof.
  destruct m as [t [a|e]]; intros Hm Hk; unfold only_on in *.
  - rewrite trace_bind_ok. apply Forall_app. split; [done | apply Hk].
  - done.
Qed.

Lemma only_on_silent {A} (repo : Repo) (r : result A) : only_on repo ([], r).
Proof. apply Forall_nil_2. Qed.

Lemma only_on_call {A} (repo : Repo) (ev : Event) (r : result A) :
  event_repo ev = Some repo → only_on repo (call ev r).
Proof. intros Hev. by apply Forall_singleton. Qed.

Ltac only_on_step :=
  first
    [ apply only_on_silent
    | apply only_on_call; reflexivity
    | apply only_on_bind; [|intros ?]
    | match goal with
      | |- only_on _ (if ?b then _ else _) => destruct b
      | |- only_on _ (match ?x with _ => _ end) => destruct x
      end ].

Lemma run_tool_only_on (repo : Repo) (name : string)
    (arguments : gmap string Value) :
  only_on repo (run_tool w repo name arguments).
Proof.
  unfold run_tool.
  destruct (match_name name) as [[]|];
    unfold git_status, git_diff_unstaged, git_diff_staged, git_diff,
      git_commit, git_add, git_reset, git_log, git_create_branch,
      git_checkout, git_show, git_grep, git_branch, rev_parse, git,
      lift, raise, mret, Py_ret;
    repeat only_on_step.
Qed.

Lemma only_on_commands_only {A} (repo : Repo) (m : Py A) :
  only_on repo m → commands_only m.
Proof.
  unfold only_on, commands_only. intros Hon.
  eapply Forall_impl; [exact Hon|]. intros ev Hev. by destruct ev.
Qed.

(** X3.  Every call a tool makes is made on the repository object it was
    given, for every tool and every request.  So in a request each call is
    either the one [git.Repo] on the requested path or a call on the
    repository that [git.Repo] returned; a request opens at most one
    repository and never calls the session. *)
Theorem call_tool_opens_one_repository (name : string)
    (arguments : gmap string Value) :
  (∀ repo, only_on repo (run_tool w repo name arguments))
  ∧ (∀ ev,
       ev ∈ trace (call_tool w repository name arguments) →
       ∃ raw,
         arguments !! "repo_path" = Some (VStr raw)
         ∧ (ev = EvRepo (path_str (Path_of raw))
            ∨ ∃ repo,
                Repo_open w (path_str (Path_of raw)) = Ok repo
                ∧ event_repo ev = Some repo))
  ∧ (length (filter (λ ev, is_repo_open ev = true)
               (trace (call_tool w repository name arguments))) ≤ 1)%nat
  ∧ (EvCheckCapability ∉ trace (call_tool w repository name arguments))
  ∧ (EvListRoots ∉ trace (call_tool w repository name arguments)).
Proof.
  assert (∀ (A : Type) (m : Py A) ev,
            commands_only m → ev ∈ trace m → is_command ev = true) as Hcmd.
  { intros A m ev Hm Hev. unfold commands_only in Hm.
    rewrite Forall_forall in Hm. by apply Hm. }
  assert (∀ (A : Type) (m : Py A),
            commands_only m →
            filter (λ ev, is_repo_open ev = true) (trace m) = []) as Hnone.
  { intros A m Hm. unfold commands_only in Hm.
    induction Hm as [|ev t Hev _ IH]; [done|].
    rewrite filter_cons_False; [exact IH|].
    destruct ev; simpl in *; congruence. }
  split; [intros repo; apply run_tool_only_on|].
  destruct (call_tool_dispatch_path w repository name arguments)
    as [e _|raw e _ _|raw e Hkey _ _|raw repo Hkey _ Hopen]; cbn [trace fst].
  - split; [intros ev Hev; by apply elem_of_nil in Hev|].
    split; [rewrite filter_nil; simpl; lia|]. split; apply not_elem_of_nil.
  - split; [intros ev Hev; by apply elem_of_nil in Hev|].
    split; [rewrite filter_nil; simpl; lia|]. split; apply not_elem_of_nil.
  - split.
    { intros ev Hev. apply list_elem_of_singleton in Hev as ->.
      exists raw. split; [done | by left]. }
    rewrite filter_cons_True, filter_nil by done.
    split; [simpl; lia|]. split; intros Hin;
      apply list_elem_of_singleton in Hin; discriminate.
  - pose proof (run_tool_only_on repo name arguments) as Hon.
    pose proof (only_on_commands_only repo _ Hon) as Hrun.
    split.
    { intros ev Hev. exists raw. split; [done|].
      apply elem_of_cons in Hev as [->|Hev]; [by left|].
      right. exists repo. split; [done|].
      unfold only_on in Hon. rewrite Forall_forall in Hon. by apply Hon. }
    rewrite filter_cons_True by done. rewrite (Hnone _ _ Hrun).
    split; [simpl; lia|]. split; intros Hin;
      apply elem_of_cons in Hin as [Hin|Hin]; try discriminate;
      by apply (Hcmd _ _ _ Hrun) in Hin.
Qed.

(** X4.  A request that succeeds answers with exactly one part, of type
    [text]. *)
Theorem call_tool_single_text (name : string) (arguments : gmap string Value) :
  single_text (call_tool w repository name arguments).
Proof.
  unfold call_tool. repeat (apply single_text_bind; intros ?).
  unfold run_tool. destruct (match_name name) as [[]|];
    repeat single_text_step.
Qed.

End DispatcherMore.

(** ** Dispatcher: the request against the advertised schema *)

Section Schema.

Context (w : World) (repository : option Path).

Lemma advertised_schema_tool (name : string) (schema : list Field) :
  advertised_schema name = Some schema →
  ∃ tool, name = GitTools_value tool
          ∧ advertised_schema (GitTools_value tool) = Some schema.
Proof.
  intros Hs. pose proof Hs as Hfound. unfold advertised_schema in Hfound.
  destruct (List.find _ list_tools) as [t|] eqn:Hfind; [|discriminate].
  apply List.find_some in Hfind as [Hin Heq].
  apply String.eqb_eq in Heq. apply list_elem_of_In in Hin.
  assert (is_Some (match_name name)) as [tool Htool].
  { apply advertised_iff_dispatched. rewrite Heq.
    by apply list_elem_of_fmap_2. }
  exists tool. apply match_name_Some in Htool as ->. done.
Qed.

Lemma call_tool_same_run (name : string) (arguments arguments' : gmap string Value) :
  arguments' !! "repo_path" = arguments !! "repo_path" →
  (∀ repo, run_tool w repo name arguments' = run_tool w repo name arguments) →
  call_tool w repository name arguments' = call_tool w repository name arguments.
Proof.
  intros Hkey Hrun. unfold call_tool, getitem. rewrite Hkey.
  destruct (arguments !! "repo_path") as [[| | |raw|]|]; try done.
  cbn [mbind result_bind expect_str]. rewrite !bind_lift_ok.
  destruct (validate_repo_path w (Path_of raw) repository); [|done].
  rewrite !bind_lift_ok. unfold open_repo.
  destruct (Repo_open w (path_str (Path_of raw))) as [repo|e]; [|done].
  rewrite !bind_call_ok. by rewrite Hrun.
Qed.

Ltac other_key Hk := intros ->; apply Hk; cbn; repeat constructor.

(** X5.  A key that is not a field of the tool's advertised schema has no
    effect: setting it to any value leaves the whole request as it
    was. *)
Theorem call_tool_ignores_undeclared_keys (name : string)
    (schema : list Field) (arguments : gmap string Value)
    (k : string) (v : Value) :
  advertised_schema name = Some schema →
  k ∉ field_name <$> schema →
  call_tool w repository name (<[k:=v]> arguments)
  = call_tool w repository name arguments.
Proof.
  intros Hs Hk. apply advertised_schema_tool in Hs as (tool & -> & Hs).
  apply call_tool_same_run.
  - apply lookup_insert_ne.
    destruct tool; injection Hs as <-; other_key Hk.
  - intros repo. unfold run_tool. rewrite match_name_value.
    destruct tool; injection Hs as <-; cbv iota; unfold getitem;
      rewrite !lookup_insert_ne by other_key Hk; reflexivity.
Qed.

Ltac use_lookups Hnone :=
  unfold run_tool; rewrite ?match_name_value; cbv iota; unfold getitem;
  rewrite ?lookup_insert_eq; rewrite ?lookup_insert_ne by done;
  rewrite ?Hnone; reflexivity.

(** X6.  The defaults of the models are the defaults of the dispatcher: for a
    field the schema gives a default (for an optional field, [None]),
    leaving the key out is the same request as sending that default. *)
Theorem call_tool_schema_defaults (name : string) (schema : list Field)
    (arguments : gmap string Value) (k : string) (ty : FieldType)
    (d : Value) :
  advertised_schema name = Some schema →
  mkField k ty (Default d) ∈ schema →
  arguments !! k = None →
  call_tool w repository name (<[k:=d]> arguments)
  = call_tool w repository name arguments.
Proof.
  intros Hs Hin Hnone. apply advertised_schema_tool in Hs as (tool & -> & Hs).
  apply call_tool_same_run.
  - apply lookup_insert_ne. intros ->.
    destruct tool; injection Hs as <-;
      repeat (apply elem_of_cons in Hin as [Hin|Hin]; [discriminate Hin|]);
      by apply elem_of_nil in Hin.
  - intros repo.
    destruct tool; injection Hs as <-;
      repeat (apply elem_of_cons in Hin as [Hin|Hin];
              [simplify_eq; use_lookups Hnone|]);
      by apply elem_of_nil in Hin.
Qed.

Lemma call_tool_dispatched (name : string) (arguments : gmap string Value)
    (raw : string) (repo : Repo) :
  arguments !! "repo_path" = Some (VStr raw) →
  validate_repo_path w (Path_of raw) repository = Ok tt →
  Repo_open w (path_str (Path_of raw)) = Ok repo →
  call_tool w repository name arguments
  = (EvRepo (path_str (Path_of raw)) :: trace (run_tool w repo name arguments),
     outcome (run_tool w repo name arguments)).
Proof.
  intros Hkey Hv Ho. unfold call_tool, getitem. rewrite Hkey.
  cbn [mbind result_bind expect_str].
  rewrite bind_lift_ok, Hv, bind_lift_ok. unfold open_repo.
  by rewrite Ho, bind_call_ok.
Qed.

(** X7.  A required field that is read by subscript (every required field but
    [branch_type]) and is missing ends the request with [KeyError] on that
    key once the repository is open; no command is run. *)
Theorem call_tool_required_field_missing (name : string)
    (schema : list Field) (arguments : gmap string Value)
    (k : string) (ty : FieldType) (raw : string) (repo : Repo) :
  advertised_schema name = Some schema →
  mkField k ty Required ∈ schema →
  k ≠ "repo_path" → k ≠ "branch_type" →
  arguments !! k = None →
  arguments !! "repo_path" = Some (VStr raw) →
  validate_repo_path w (Path_of raw) repository = Ok tt →
  Repo_open w (path_str (Path_of raw)) = Ok repo →
  call_tool w repository name arguments
  = ([EvRepo (path_str (Path_of raw))], Raise (KeyError k)).
Proof.
  intros Hs Hin Hk1 Hk2 Hnone Hkey Hv Ho.
  rewrite (call_tool_dispatched name arguments raw repo Hkey Hv Ho).
  apply advertised_schema_tool in Hs as (tool & -> & Hs).
  assert (run_tool w repo (GitTools_value tool) arguments
          = ([], Raise (KeyError k))) as ->; [|done].
  destruct tool; injection Hs as <-;
    repeat (apply elem_of_cons in Hin as [Hin|Hin];
            [simplify_eq; try use_lookups Hnone|]);
    by apply elem_of_nil in Hin.
Qed.

(** X8.  [branch_type] is required by the schema of [git_branch], but the
    dispatcher reads it with the default [local]: a request without it
    lists the local branches. *)
Theorem call_tool_branch_type_default (arguments : gmap string Value) :
  arguments !! "branch_type" = None →
  advertised_schema "git_branch" = Some GitBranch
  ∧ mkField "branch_type" TStr Required ∈ GitBranch
  ∧ call_tool w repository "git_branch" arguments
    = call_tool w repository "git_branch"
        (<["branch_type" := VStr "local"]> arguments).
Proof.
  intros Hnone. split; [done|]. split; [repeat constructor|].
  symmetry. apply call_tool_same_run.
  - by apply lookup_insert_ne.
  - intros repo. use_lookups Hnone.
Qed.

End Schema.

(** ** Tools: what is checked before a command runs *)

Section ToolSteps.

Context (w : World) (repo : Repo).

(** X9.  [git_diff] resolves the target, then a non-empty base, before it runs
    [git diff]: when either does not resolve, the exception of
    [rev_parse] ends the call and no diff is run. *)
Theorem git_diff_unresolved_ref (target : string) (base : option string)
    (merge_base : bool) (context_lines : Z) (ignore_whitespace : bool)
    (paths : option (list string)) (e : exn) :
  startswith_dash target = false →
  startswith_dash (default "" base) = false →
  (repo_rev_parse w repo target = Raise e →
   git_diff w repo target base merge_base context_lines ignore_whitespace
     paths
   = ([EvRevParse repo target], Raise e))
  ∧ (∀ b, base = Some b → b ≠ "" →
       repo_rev_parse w repo target = Ok tt →
       repo_rev_parse w repo b = Raise e →
       git_diff w repo target base merge_base context_lines
         ignore_whitespace paths
       = ([EvRevParse repo target; EvRevParse repo b], Raise e)).
Proof.
  intros Ht Hb. unfold git_diff. rewrite Ht, Hb, andb_false_r.
  unfold rev_parse. split.
  - intros ->. by rewrite bind_call_raise.
  - intros b -> Hne -> Hrb. rewrite bind_call_ok.
    rewrite (truthy_str_nonempty b Hne). cbn [from_option id].
    by rewrite Hrb, bind_call_raise.
Qed.

(** X10.  [git_checkout] resolves the name first: when it does not resolve no
    checkout is run; when it does, the one command is [git checkout
    <name>] and the answer names the branch. *)
Theorem git_checkout_steps (branch_name : string) :
  startswith_dash branch_name = false →
  (∀ e, repo_rev_parse w repo branch_name = Raise e →
     git_checkout w repo branch_name
     = ([EvRevParse repo branch_name], Raise e))
  ∧ (repo_rev_parse w repo branch_name = Ok tt →
     trace (git_checkout w repo branch_name)
     = [EvRevParse repo branch_name; EvGit repo "checkout" [branch_name]]
     ∧ outcome (git_checkout w repo branch_name)
       = (repo_git w repo "checkout" [branch_name]
          ≫= λ _, Ok ("Switched to branch '" +:+ branch_name +:+ "'"))).
Proof.
  intros Hb. unfold git_checkout. rewrite Hb. unfold rev_parse. split.
  - intros e ->. by rewrite bind_call_raise.
  - intros ->. rewrite bind_call_ok.
    change [Some branch_name] with (Some <$> [branch_name]).
    rewrite git_all_present.
    by destruct (repo_git w repo "checkout" [branch_name]).
Qed.

(** X11.  [git_create_branch] looks the base up before it creates anything: the
    named reference when [base_branch] is a non-empty string, the active
    branch otherwise.  When the lookup fails nothing is created; when it
    succeeds the branch is created from it and the answer names both. *)
Theorem git_create_branch_steps (branch_name : string)
    (base_branch : option string) :
  (∀ b, base_branch = Some b → b ≠ "" →
     (∀ e, repo_references w repo b = Raise e →
        git_create_branch w repo branch_name base_branch
        = ([EvReference repo b], Raise e))
     ∧ (∀ base, repo_references w repo b = Ok base →
          git_create_branch w repo branch_name base_branch
          = ([EvReference repo b; EvCreateHead repo branch_name base],
             repo_create_head w repo branch_name base
             ≫= λ _, Ok ("Created branch '" +:+ branch_name +:+ "' from '"
                         +:+ ref_name base +:+ "'"))))
  ∧ (base_branch = None ∨ base_branch = Some "" →
     (∀ e, repo_active_branch w repo = Raise e →
        git_create_branch w repo branch_name base_branch
        = ([EvActiveBranch repo], Raise e))
     ∧ (∀ base, repo_active_branch w repo = Ok base →
          git_create_branch w repo branch_name base_branch
          = ([EvActiveBranch repo; EvCreateHead repo branch_name base],
             repo_create_head w repo branch_name base
             ≫= λ _, Ok ("Created branch '" +:+ branch_name +:+ "' from '"
                         +:+ ref_name base +:+ "'")))).
Proof.
  unfold git_create_branch. split.
  - intros b -> Hne. rewrite (truthy_str_nonempty b Hne).
    cbn [from_option id]. split.
    + intros e ->. by rewrite bind_call_raise.
    + intros base ->. rewrite bind_call_ok.
      by destruct (repo_create_head w repo branch_name base).
  - intros Hfalsy.
    assert (truthy_str base_branch = false) as -> by (by destruct Hfalsy as [-> | ->]).
    split.
    + intros e ->. by rewrite bind_call_raise.
    + intros base ->. rewrite bind_call_ok.
      by destruct (repo_create_head w repo branch_name base).
Qed.

(** X12.  [git_reset] with a non-empty path list resets those paths and
    reports how many there were; with no list, or an empty one, it resets
    the whole index. *)
Theorem git_reset_scope (paths : option (list string)) :
  (∀ p ps, paths = Some (p :: ps) →
     trace (git_reset w repo paths) = [EvIndexReset repo (Some (p :: ps))]
     ∧ outcome (git_reset w repo paths)
       = (repo_index_reset w repo (Some (p :: ps))
          ≫= λ _, Ok ("Reset " +:+ pretty (S (length ps)) +:+ " files")))
  ∧ (paths = None ∨ paths = Some [] →
     trace (git_reset w repo paths) = [EvIndexReset repo None]
     ∧ outcome (git_reset w repo paths)
       = (repo_index_reset w repo None
          ≫= λ _, Ok "All staged changes reset")).
Proof.
  unfold git_reset. split.
  - intros p ps ->. cbn [truthy_list from_option id].
    by destruct (repo_index_reset w repo (Some (p :: ps))).
  - intros [-> | ->]; cbn [truthy_list];
      by destruct (repo_index_reset w repo None).
Qed.

End ToolSteps.

(** ** Tools: argument lists and optional values *)

Section ToolArguments.

Context (w : World) (repo : Repo).

Lemma blank_str_Some (c : ascii) (s : string) :
  blank_str (Some (String c s)) = Some (String c s).
Proof. done. Qed.

(** X13.  Every optional argument that a tool tests with [if x:] counts as
    absent when it is the empty string or the empty list: the call is the
    same as with [None]. *)
Theorem falsy_options_are_absent (target pattern branch_name : string)
    (base revision base_branch revision_range : option string)
    (start_timestamp end_timestamp : option string)
    (paths : option (list string)) (merge_base ignore_whitespace : bool)
    (ignore_case line_numbers : bool) (context_lines max_count : Z) :
  git_status w repo paths = git_status w repo (blank_list paths)
  ∧ git_diff_unstaged w repo context_lines ignore_whitespace paths
    = git_diff_unstaged w repo context_lines ignore_whitespace
        (blank_list paths)
  ∧ git_diff_staged w repo context_lines ignore_whitespace paths
    = git_diff_staged w repo context_lines ignore_whitespace
        (blank_list paths)
  ∧ git_diff w repo target base merge_base context_lines ignore_whitespace
      paths
    = git_diff w repo target (blank_str base) merge_base context_lines
        ignore_whitespace (blank_list paths)
  ∧ git_reset w repo paths = git_reset w repo (blank_list paths)
  ∧ git_log w repo max_count revision_range paths start_timestamp
      end_timestamp
    = git_log w repo max_count (blank_str revision_range) (blank_list paths)
        (blank_str start_timestamp) (blank_str end_timestamp)
  ∧ git_create_branch w repo branch_name base_branch
    = git_create_branch w repo branch_name (blank_str base_branch)
  ∧ git_grep w repo pattern revision paths ignore_case line_numbers
    = git_grep w repo pattern (blank_str revision) (blank_list paths)
        ignore_case line_numbers.
Proof.
  assert (∀ o, o = blank_str o ∨ (o = Some "" ∧ blank_str o = None)) as Hs.
  { intros [[|c s]|]; auto. }
  assert (∀ o, o = blank_list o ∨ (o = Some [] ∧ blank_list o = None)) as Hl.
  { intros [[|p ps]|]; auto. }
  repeat split.
  - by destruct (Hl paths) as [<-|[-> ->]].
  - by destruct (Hl paths) as [<-|[-> ->]].
  - by destruct (Hl paths) as [<-|[-> ->]].
  - by destruct (Hl paths) as [<-|[-> ->]], (Hs base) as [<-|[-> ->]].
  - by destruct (Hl paths) as [<-|[-> ->]].
  - by destruct (Hl paths) as [<-|[-> ->]],
      (Hs revision_range) as [<-|[-> ->]],
      (Hs start_timestamp) as [<-|[-> ->]],
      (Hs end_timestamp) as [<-|[-> ->]].
  - by destruct (Hs base_branch) as [<-|[-> ->]].
  - by destruct (Hl paths) as [<-|[-> ->]], (Hs revision) as [<-|[-> ->]].
Qed.

(** X14.  [git_branch] for the three scopes: [local] adds no flag, [remote]
    adds [-r], [all] adds [-a]; a commit filter is passed whenever it is
    not [None], the empty string included, [--contains] before
    [--no-contains]. *)
Theorem git_branch_arguments (branch_type : string) (flag : list string)
    (contains not_contains : option string) :
  (branch_type, flag) ∈ [("local", []); ("remote", ["-r"]); ("all", ["-a"])] →
  git_branch w repo branch_type contains not_contains
  = call (EvGit repo "branch"
            (flag ++ contains_args "--contains" contains
                  ++ contains_args "--no-contains" not_contains))
         (repo_git w repo "branch"
            (flag ++ contains_args "--contains" contains
                  ++ contains_args "--no-contains" not_contains)).
Proof.
  intros Hin.
  repeat (apply elem_of_cons in Hin as [[= -> ->]|Hin];
          [by destruct contains, not_contains|]).
  by apply elem_of_nil in Hin.
Qed.

(** X15.  The one command of [git_grep]: only the fixed flags [-i] and [-n]
    stand before [-e], the pattern follows [-e] directly, and the
    argument list ends with [--] and the paths; [--] is there even
    without paths. *)
Theorem git_grep_arguments (pattern : string) (revision : option string)
    (paths : option (list string)) (ignore_case line_numbers : bool) :
  ∃ flags middle,
    git_grep w repo pattern revision paths ignore_case line_numbers
    = call (EvGit repo "grep"
              (flags ++ ["-e"; pattern] ++ middle ++ "--" :: default [] paths))
           (repo_git w repo "grep"
              (flags ++ ["-e"; pattern] ++ middle ++ "--" :: default [] paths))
    ∧ flags ⊆ ["-i"; "-n"]
    ∧ middle = match blank_str revision with
               | Some r => [r]
               | None => []
               end.
Proof.
  exists ((if ignore_case then ["-i"] else [])
          ++ (if line_numbers then ["-n"] else [])),
         (match blank_str revision with Some r => [r] | None => [] end).
  split; [|split; [|done]].
  - unfold git_grep. rewrite git_all_present.
    assert (∀ l : list string,
              (if truthy_list paths then l ++ default [] paths else l)
              = l ++ default [] paths) as Hp.
    { intros l. destruct paths as [[|p ps]|]; simpl; by rewrite ?app_nil_r. }
    rewrite Hp.
    destruct ignore_case, line_numbers, revision as [[|c r]|];
      reflexivity.
  - intros x Hx.
    destruct ignore_case, line_numbers; simpl in Hx;
      repeat (apply elem_of_cons in Hx as [->|Hx]; [repeat constructor|]);
      by apply elem_of_nil in Hx.
Qed.

(** X16.  The path filter of [git_status], [git_diff_unstaged] and
    [git_diff_staged]: a non-empty list of paths is passed behind [--],
    after the options; without paths there is no [--].  Only the staged
    variant passes [--cached]. *)
Theorem status_and_diff_arguments (context_lines : Z)
    (ignore_whitespace : bool) (paths : option (list string)) :
  trace (git_status w repo paths)
  = [EvGit repo "status" (after_separator paths)]
  ∧ trace (git_diff_unstaged w repo context_lines ignore_whitespace paths)
    = [EvGit repo "diff"
         (diff_options context_lines ignore_whitespace
          ++ after_separator paths)]
  ∧ trace (git_diff_staged w repo context_lines ignore_whitespace paths)
    = [EvGit repo "diff"
         (["--unified=" +:+ pretty context_lines; "--cached"]
          ++ (if ignore_whitespace then ["-w"] else [])
          ++ after_separator paths)]
  ∧ "--cached" ∉ diff_options context_lines ignore_whitespace.
Proof.
  unfold git_status, git_diff_unstaged, git_diff_staged.
  rewrite !git_all_present, !path_filter_after_separator.
  repeat split; try by destruct ignore_whitespace.
  unfold diff_options. intros Hin.
  apply elem_of_cons in Hin as [Hin|Hin]; [discriminate Hin|].
  destruct ignore_whitespace.
  - apply list_elem_of_singleton in Hin. discriminate.
  - by apply elem_of_nil in Hin.
Qed.

End ToolArguments.

(** ** PathGuard and resolver: nesting, probing, failures *)

Section GuardAndResolver.

Context (w : World).

Lemma validate_ok_inv (p a : Path) :
  validate_repo_path w p (Some a) = Ok tt →
  ∃ rp ra, fs_resolve w p = Ok rp ∧ fs_resolve w a = Ok ra
           ∧ is_Some (relative_to rp ra).
Proof.
  unfold validate_repo_path.
  destruct (fs_resolve w p) as [rp|]; [|discriminate].
  destruct (fs_resolve w a) as [ra|]; [|discriminate].
  destruct (relative_to rp ra) eqn:Hrel; [|discriminate].
  intros _. exists rp, ra. by rewrite Hrel.
Qed.

(** X17.  Allowed roots nest: a root that resolves lies within itself, and a
    path the guard accepts under an inner root is accepted under every
    root that accepts the inner root. *)
Theorem validate_repo_path_nested (p a b : Path) :
  ((∃ ra, fs_resolve w a = Ok ra) → validate_repo_path w a (Some a) = Ok tt)
  ∧ (validate_repo_path w p (Some a) = Ok tt →
     validate_repo_path w a (Some b) = Ok tt →
     validate_repo_path w p (Some b) = Ok tt).
Proof.
  split.
  - intros [ra Ha]. rewrite (validate_resolved w a a ra ra Ha Ha).
    assert (is_Some (relative_to ra ra)) as [r ->]; [|done].
    apply relative_to_spec. split; [done|]. exists []. by rewrite app_nil_r.
  - intros Hpa Hab.
    apply validate_ok_inv in Hpa as (rp & ra & Hp & Ha & Hrel1).
    apply validate_ok_inv in Hab as (ra' & rb & Ha' & Hb & Hrel2).
    assert (ra' = ra) as -> by congruence.
    rewrite (validate_resolved w p b rp rb Hp Hb).
    assert (is_Some (relative_to rp rb)) as [r ->]; [|done].
    apply relative_to_spec in Hrel1 as [Hr1 [rest1 Ht1]].
    apply relative_to_spec in Hrel2 as [Hr2 [rest2 Ht2]].
    apply relative_to_spec. split; [congruence|].
    exists (rest2 ++ rest1). rewrite Ht1, Ht2. by rewrite app_assoc.
Qed.

Lemma collect_repos_trace (roots repo_paths : list string) :
  Forall (classified w) roots →
  trace (collect_repos w repo_paths roots) = EvRepo <$> roots.
Proof.
  revert repo_paths.
  induction roots as [|path roots IH]; intros repo_paths Hall; [done|].
  apply Forall_cons in Hall as [Hpath Hall].
  cbn [collect_repos]. unfold open_repo, try_except.
  destruct (Repo_open w path) as [repo|e] eqn:Hopen.
  - rewrite bind_call_ok. cbn [trace outcome mret Py_ret fst snd].
    rewrite trace_bind_ok. cbn. by rewrite IH.
  - destruct (Hpath e Hopen) as [q ->]. rewrite bind_call_raise.
    cbn [app]. unfold mret, Py_ret. rewrite trace_bind_ok. cbn.
    by rewrite IH.
Qed.

(** Probing stops at the first root whose opening raises an exception
    that [by_roots] does not handle. *)
Lemma collect_repos_stops (before after repo_paths : list string)
    (root : string) (e : exn) :
  Forall (classified w) before →
  Repo_open w root = Raise e →
  (∀ q, e ≠ InvalidGitRepositoryError q) →
  collect_repos w repo_paths (before ++ root :: after)
  = (EvRepo <$> (before ++ [root]), Raise e).
Proof.
  intros Hall Hopen Hother. revert repo_paths.
  induction Hall as [|path before Hpath _ IH]; intros repo_paths.
  - cbn [app collect_repos]. unfold open_repo, try_except.
    rewrite Hopen, bind_call_raise.
    destruct e; try done. by destruct (Hother path).
  - cbn [app collect_repos]. unfold open_repo, try_except.
    destruct (Repo_open w path) as [repo|e'] eqn:Hpath_open.
    + rewrite bind_call_ok. cbn [trace outcome mret Py_ret fst snd].
      unfold mbind, Py_bind. by rewrite IH.
    + destruct (Hpath e' Hpath_open) as [q ->]. rewrite bind_call_raise.
      cbn [app]. unfold mret, Py_ret, mbind, Py_bind. by rewrite IH.
Qed.

Lemma list_repos_with_roots (repository : option Path) (roots : list string) :
  session_is_ServerSession w = true →
  session_roots_capability w = true →
  session_list_roots w = Ok roots →
  list_repos w repository
  = (EvCheckCapability :: EvListRoots :: trace (collect_repos w [] roots),
     outcome (collect_repos w [] roots)
     ≫= λ root_repos, Ok (root_repos ++ by_commandline repository)).
Proof.
  intros Hs Hcap Hroots. unfold list_repos, by_roots.
  rewrite Hs, Hcap. cbn [negb]. rewrite bind_call_ok. cbn [negb].
  rewrite Hroots, bind_call_ok. unfold mbind, Py_bind.
  destruct (collect_repos w [] roots) as [t [l|e]]; simpl;
    by rewrite ?app_nil_r.
Qed.

(** X18.  With the roots capability, [list_repos] asks the session once and
    then opens the advertised roots one after the other in the advertised
    order: all of them, each once, when every root either opens or is
    refused with [InvalidGitRepositoryError]; up to and including the
    first root whose opening raises another exception otherwise.  The
    command-line repository is not opened. *)
Theorem list_repos_probes_each_root_once (repository : option Path)
    (roots : list string) :
  session_is_ServerSession w = true →
  session_roots_capability w = true →
  session_list_roots w = Ok roots →
  (Forall (classified w) roots →
   trace (list_repos w repository)
   = EvCheckCapability :: EvListRoots :: (EvRepo <$> roots))
  ∧ (∀ before root after e,
       roots = before ++ root :: after →
       Forall (classified w) before →
       Repo_open w root = Raise e →
       (∀ q, e ≠ InvalidGitRepositoryError q) →
       trace (list_repos w repository)
       = EvCheckCapability :: EvListRoots :: (EvRepo <$> (before ++ [root]))).
Proof.
  intros Hs Hcap Hroots.
  rewrite (list_repos_with_roots repository roots Hs Hcap Hroots).
  cbn [trace fst]. split.
  - intros Hall. by rewrite (collect_repos_trace roots [] Hall).
  - intros before root after e -> Hall Hopen Hother.
    by rewrite (collect_repos_stops before after [] root e Hall Hopen Hother).
Qed.

(** X19.  [list_repos] has no partial answer: when the session is not a
    [ServerSession], when listing the roots fails, or when opening any
    advertised root, the first or a later one, raises anything but
    [InvalidGitRepositoryError], the exception ends the call: the roots
    found so far and the command-line repository are not returned, and the
    roots after it are not opened. *)
Theorem list_repos_failures (repository : option Path) :
  (session_is_ServerSession w = false →
   list_repos w repository
   = ([], Raise (TypeError
                   "server.request_context.session must be a ServerSession")))
  ∧ (∀ e, session_is_ServerSession w = true →
       session_roots_capability w = true →
       session_list_roots w = Raise e →
       list_repos w repository
       = ([EvCheckCapability; EvListRoots], Raise e))
  ∧ (∀ e before root after,
       session_is_ServerSession w = true →
       session_roots_capability w = true →
       session_list_roots w = Ok (before ++ root :: after) →
       Forall (classified w) before →
       Repo_open w root = Raise e →
       (∀ q, e ≠ InvalidGitRepositoryError q) →
       list_repos w repository
       = (EvCheckCapability :: EvListRoots :: (EvRepo <$> (before ++ [root])),
          Raise e)).
Proof.
  split; [|split].
  - unfold list_repos, by_roots. by intros ->.
  - unfold list_repos, by_roots. intros e -> -> ->. cbn [negb].
    rewrite bind_call_ok. cbn [negb]. by rewrite bind_call_raise.
  - intros e before root after Hs Hcap Hroots Hall Hopen Hother.
    rewrite (list_repos_with_roots repository _ Hs Hcap Hroots).
    by rewrite (collect_repos_stops before after [] root e Hall Hopen Hother).
Qed.

End GuardAndResolver.

(** ** Show: the header comes first *)

Section ShowText.

Context (w : World) (repo : Repo).

Lemma show_entries_extends (output result : list string) (ds : list Diff) :
  show_entries w output ds = Ok result → ∃ rest, result = output ++ rest.
Proof.
  revert output. induction ds as [|d ds IH]; intros output; simpl.
  - intros [= <-]. exists []. by rewrite app_nil_r.
  - destruct (show_entry w d) as [piece|e]; [|discriminate]. cbn.
    intros Hres. apply IH in Hres as [rest ->].
    exists (piece ++ rest). by rewrite app_assoc.
Qed.

(** X20.  Whenever [git_show] answers, the revision resolved to a commit and
    the text begins with the header of that commit; the entries of the
    diff only add to it. *)
Theorem git_show_starts_with_header (revision text : string) :
  outcome (git_show w repo revision) = Ok text →
  ∃ commit body,
    repo_commit w repo revision = Ok commit
    ∧ text = show_header w commit +:+ body.
Proof.
  intros Hout.
  destruct (repo_commit w repo revision) as [commit|e] eqn:Hc.
  2: { unfold git_show in Hout. rewrite Hc in Hout. discriminate. }
  destruct (show_diff_request commit) as [a b] eqn:Hreq.
  rewrite (git_show_unfold w repo revision commit a b Hc Hreq) in Hout.
  cbn [outcome snd] in Hout. unfold show_output in Hout.
  destruct (repo_diff w repo a b) as [ds|e]; [|discriminate].
  cbn in Hout.
  destruct (show_entries w [show_header w commit] ds) as [out|e] eqn:Hents;
    [|discriminate].
  injection Hout as <-.
  apply show_entries_extends in Hents as [rest ->].
  exists commit, (String.concat "" rest). split; [done|].
  apply concat_empty_cons.
Qed.

End ShowText.

(** ** The further properties on the concrete world *)

Lemma call_tool_unknown_tool_witness :
  call_tool Demo.world (Some (Path_of "/repos")) "git_push"
    {[ "repo_path" := VStr "/repos/proj" ]}
  = ([EvRepo "/repos/proj"], Raise (ValueError "Unknown tool: git_push")).
Proof.
  destruct (call_tool_unknown_tool Demo.world (Some (Path_of "/repos"))
              "git_push" {[ "repo_path" := VStr "/repos/proj" ]}
              "/repos/proj") as [_ H].
  - intros Hin. cbn in Hin.
    repeat (apply elem_of_cons in Hin as [Hin|Hin]; [discriminate Hin|]).
    by apply elem_of_nil in Hin.
  - vm_compute. reflexivity.
  - vm_compute. reflexivity.
  - apply (H Demo.repo). reflexivity.
Defined.

Lemma call_tool_missing_repo_path_witness :
  call_tool Demo.world None "git_status" {[ "paths" := VList ["a"] ]}
  = ([], Raise (KeyError "repo_path")).
Proof.
  apply (call_tool_missing_repo_path Demo.world None "git_status"
           {[ "paths" := VList ["a"] ]}).
  vm_compute. reflexivity.
Defined.

Lemma call_tool_single_text_witness :
  ∃ s, reply "Invalid branch type: bogus" = [mkText "text" s].
Proof.
  apply (call_tool_single_text Demo.world None "git_branch"
           {[ "repo_path" := VStr "/repos/proj";
              "branch_type" := VStr "bogus" ]}).
  vm_compute. reflexivity.
Defined.

Lemma call_tool_ignores_undeclared_keys_witness :
  call_tool Demo.world None "git_status"
    (<["verbose" := VBool true]> {[ "repo_path" := VStr "/repos/proj" ]})
  = call_tool Demo.world None "git_status"
      {[ "repo_path" := VStr "/repos/proj" ]}.
Proof.
  apply (call_tool_ignores_undeclared_keys Demo.world None "git_status"
           GitStatus).
  - reflexivity.
  - intros Hin. cbn in Hin.
    repeat (apply elem_of_cons in Hin as [Hin|Hin]; [discriminate Hin|]).
    by apply elem_of_nil in Hin.
Defined.

Lemma call_tool_schema_defaults_witness :
  call_tool Demo.world None "git_grep"
    (<["line_numbers" := VBool true]>
       {[ "repo_path" := VStr "/repos/proj"; "pattern" := VStr "TODO" ]})
  = call_tool Demo.world None "git_grep"
      {[ "repo_path" := VStr "/repos/proj"; "pattern" := VStr "TODO" ]}.
Proof.
  apply (call_tool_schema_defaults Demo.world None "git_grep" GitGrep
           _ "line_numbers" TBool (VBool true)).
  - reflexivity.
  - repeat constructor.
  - vm_compute. reflexivity.
Defined.

Lemma call_tool_required_field_missing_witness :
  call_tool Demo.world None "git_diff" {[ "repo_path" := VStr "/repos/proj" ]}
  = ([EvRepo "/repos/proj"], Raise (KeyError "target")).
Proof.
  apply (call_tool_required_field_missing Demo.world None "git_diff" GitDiff
           {[ "repo_path" := VStr "/repos/proj" ]} "target" TStr
           "/repos/proj" Demo.repo).
  - reflexivity.
  - repeat constructor.
  - discriminate.
  - discriminate.
  - vm_compute. reflexivity.
  - vm_compute. reflexivity.
  - reflexivity.
  - reflexivity.
Defined.

Lemma call_tool_branch_type_default_witness :
  call_tool Demo.world None "git_branch"
    {[ "repo_path" := VStr "/repos/proj" ]}
  = call_tool Demo.world None "git_branch"
      (<["branch_type" := VStr "local"]>
         {[ "repo_path" := VStr "/repos/proj" ]}).
Proof.
  apply (call_tool_branch_type_default Demo.world None
           {[ "repo_path" := VStr "/repos/proj" ]}).
  vm_compute. reflexivity.
Defined.

Lemma git_diff_unresolved_ref_witness :
  git_diff Demo.world Demo.repo "main" (Some "nowhere") false 3 false None
  = ([EvRevParse Demo.repo "main"; EvRevParse Demo.repo "nowhere"],
     Raise (BadName "nowhere")).
Proof.
  destruct (git_diff_unresolved_ref Demo.world Demo.repo "main"
              (Some "nowhere") false 3 false None (BadName "nowhere")
              eq_refl eq_refl) as [_ H].
  apply (H "nowhere"); [reflexivity | discriminate | reflexivity | reflexivity].
Defined.

Lemma git_checkout_steps_witness :
  git_checkout Demo.world Demo.repo "nowhere"
  = ([EvRevParse Demo.repo "nowhere"], Raise (BadName "nowhere"))
  ∧ trace (git_checkout Demo.world Demo.repo "feature")
    = [EvRevParse Demo.repo "feature";
       EvGit Demo.repo "checkout" ["feature"]].
Proof.
  split.
  - destruct (git_checkout_steps Demo.world Demo.repo "nowhere" eq_refl)
      as [H _].
    apply H. reflexivity.
  - destruct (git_checkout_steps Demo.world Demo.repo "feature" eq_refl)
      as [_ H].
    apply H. reflexivity.
Defined.

Lemma git_create_branch_steps_witness :
  git_create_branch Demo.world Demo.repo "topic" (Some "gone")
  = ([EvReference Demo.repo "gone"], Raise (IndexError "gone"))
  ∧ git_create_branch Demo.world Demo.repo "topic" (Some "")
    = ([EvActiveBranch Demo.repo;
        EvCreateHead Demo.repo "topic" {| ref_name := "main" |}],
       Ok "Created branch 'topic' from 'main'").
Proof.
  destruct (git_create_branch_steps Demo.world Demo.repo "topic" (Some "gone"))
    as [Hnamed _].
  destruct (git_create_branch_steps Demo.world Demo.repo "topic" (Some ""))
    as [_ Hactive].
  split.
  - apply (Hnamed "gone"); [reflexivity | discriminate | reflexivity].
  - apply Hactive; [by right | reflexivity].
Defined.

Lemma git_reset_scope_witness :
  git_reset Demo.world Demo.repo (Some ["a"; "b"])
  = ([EvIndexReset Demo.repo (Some ["a"; "b"])], Ok "Reset 2 files")
  ∧ git_reset Demo.world Demo.repo (Some [])
    = ([EvIndexReset Demo.repo None], Ok "All staged changes reset").
Proof.
  destruct (git_reset_scope Demo.world Demo.repo (Some ["a"; "b"]))
    as [Hsome _].
  destruct (git_reset_scope Demo.world Demo.repo (Some [])) as [_ Hall].
  destruct (Hsome "a" ["b"] eq_refl) as [Ht Ho].
  destruct (Hall (or_intror eq_refl)) as [Ht' Ho'].
  split; apply injective_projections; assumption.
Defined.

Lemma git_branch_arguments_witness :
  git_branch Demo.world Demo.repo "remote" (Some "") None
  = ([EvGit Demo.repo "branch" ["-r"; "--contains"; ""]],
     Ok "git branch -r --contains ").
Proof.
  apply (git_branch_arguments Demo.world Demo.repo "remote" ["-r"]
           (Some "") None).
  repeat constructor.
Defined.

Lemma validate_repo_path_nested_witness :
  validate_repo_path Demo.world (Path_of "/repos/proj/sub")
    (Some (Path_of "/repos")) = Ok tt.
Proof.
  destruct (validate_repo_path_nested Demo.world (Path_of "/repos/proj/sub")
              (Path_of "/repos/proj") (Path_of "/repos")) as [_ H].
  apply H; reflexivity.
Defined.

Lemma list_repos_probes_each_root_once_witness :
  trace (list_repos Demo.world None)
  = [EvCheckCapability; EvListRoots; EvRepo "/repos/other"; EvRepo "/tmp";
     EvRepo "/repos/proj"]
  ∧ trace (list_repos Scenario.missing_root None)
    = [EvCheckCapability; EvListRoots; EvRepo "/repos/other";
       EvRepo "/missing"].
Proof.
  split.
  - destruct (list_repos_probes_each_root_once Demo.world None
                ["/repos/other"; "/tmp"; "/repos/proj"]
                eq_refl eq_refl eq_refl) as [H _].
    apply H.
    repeat apply Forall_cons_2; [| | | apply Forall_nil_2];
      intros e He; vm_compute in He; try discriminate He;
      injection He as <-; by eexists.
  - destruct (list_repos_probes_each_root_once Scenario.missing_root None
                ["/repos/other"; "/missing"; "/repos/proj"]
                eq_refl eq_refl eq_refl) as [_ H].
    apply (H ["/repos/other"] "/missing" ["/repos/proj"]
             (NoSuchPathError "/missing")); [reflexivity | | reflexivity | done].
    apply Forall_cons_2; [|apply Forall_nil_2].
    intros e He. discriminate He.
Defined.

Lemma list_repos_failures_witness :
  list_repos Scenario.foreign_session (Some (Path_of "/repos/proj"))
  = ([], Raise (TypeError
                  "server.request_context.session must be a ServerSession"))
  ∧ list_repos Scenario.missing_root (Some (Path_of "/repos/proj"))
    = ([EvCheckCapability; EvListRoots; EvRepo "/repos/other";
        EvRepo "/missing"],
       Raise (NoSuchPathError "/missing")).
Proof.
  split.
  - destruct (list_repos_failures Scenario.foreign_session
                (Some (Path_of "/repos/proj"))) as [H _].
    apply H. reflexivity.
  - destruct (list_repos_failures Scenario.missing_root
                (Some (Path_of "/repos/proj"))) as (_ & _ & H).
    apply (H (NoSuchPathError "/missing") ["/repos/other"] "/missing"
             ["/repos/proj"]); [reflexivity | reflexivity | reflexivity | |
                                reflexivity | done].
    apply Forall_cons_2; [|apply Forall_nil_2].
    intros e He. discriminate He.
Defined.

Lemma git_show_starts_with_header_witness :
  ∃ commit body,
    repo_commit Demo.world Demo.repo "decade" = Ok commit
    ∧ "Commit: 'decade'
Author: <Ada ada@example.org>
Date: datetime(60)
Message: 'second'

--- README
+++ README
-hello+bye" = show_header Demo.world commit +:+ body.
Proof.
  apply (git_show_starts_with_header Demo.world Demo.repo "decade").
  vm_compute. reflexivity.
Defined.
